(** * The language-file build task ([gulp/task-build-lang.js])

    A shallow embedding of [BuildLangTask]: the path resolution of [run],
    the per-file step [treatFile], the prefix router [getPrefix], the merger
    [addProperties] and the serializer [treatMergedData], followed by the
    properties of the specification that concern them.

    Modelling conventions.
    - A JavaScript string is a [string]: a sequence of code units, here the
      code units below 256.  Comparison of strings by code unit is
      [String.compare].
    - A JavaScript object is an [object]: its own enumerable properties in
      the order [[OwnPropertyKeys]] lists them (array indices in ascending
      numeric order, then the other keys in order of creation), and its
      prototype, which is [Object.prototype] until an assignment to
      [__proto__] replaces it.
    - A function that can throw returns a [result].  The task itself can
      raise one exception, the [TypeError] of calling [o.hasOwnProperty]
      when that is not a function: an own or inherited property of that name
      holding a parsed value, or nothing at all on an object without
      prototype.
    - [JSON.parse] is a library function; the pipeline takes it as a
      parameter returning [None] where the library throws [SyntaxError]. *)

From Stdlib Require Import String Ascii List ZArith NArith Lia Bool.
From Stdlib Require Import Permutation Sorted Mergesort Orders.
From Stdlib.Strings Require Import Byte.
From Stdlib Require Import DecimalString.
Import ListNotations.

Local Open Scope list_scope.
Local Open Scope string_scope.
#[local] Set Warnings "-register-all".

(** ** JavaScript string and array primitives used by the task *)

Module JS.

(** [s.endsWith(suffix)] *)
Definition endsWith (s suffix : string) : bool :=
  let n := String.length s in
  let m := String.length suffix in
  (m <=? n)%nat && (substring (n - m) m s =? suffix)%string.

(** [s.lastIndexOf(pat)]: the greatest position at which [pat] occurs in
    [s], or [-1].  The scan walks [s] from position [i] and remembers the
    last position where [pat] is a prefix of what remains. *)
Fixpoint lastIndexOf_scan (pat s : string) (i found : Z) : Z :=
  let found' := if prefix pat s then i else found in
  match s with
  | EmptyString => found'
  | String _ rest => lastIndexOf_scan pat rest (i + 1) found'
  end.

Definition lastIndexOf (s pat : string) : Z :=
  lastIndexOf_scan pat s 0 (-1).

(** [s.substr(start)] with the length omitted: a negative [start] counts
    from the end, and the start is clamped to the string. *)
Definition substr (s : string) (start : Z) : string :=
  let len := Z.of_nat (String.length s) in
  let from := if (start <? 0)%Z then Z.max (len + start) 0 else Z.min start len in
  substring (Z.to_nat from) (String.length s - Z.to_nat from) s.

(** [s.split(sep)] for a separator that matches exactly one code unit
    satisfying [sep] (the regular expression [/[\/\\]/], the string ['.']).
    The result is never empty: the empty string splits into [[""]]. *)
Fixpoint split (sep : ascii -> bool) (s : string) : list string :=
  match s with
  | EmptyString => [EmptyString]
  | String c rest =>
      if sep c then EmptyString :: split sep rest
      else match split sep rest with
           | [] => [String c EmptyString]
           | w :: ws => String c w :: ws
           end
  end.

(** [a.join(sep)] *)
Definition join (sep : string) (a : list string) : string :=
  String.concat sep a.

(** [a[i]]: [None] is [undefined]. *)
Definition at_index (a : list string) (i : nat) : option string :=
  nth_error a i.

(** [x === lit] for a string literal [lit]. *)
Definition strict_eq (x : option string) (lit : string) : bool :=
  match x with
  | Some s => (s =? lit)%string
  | None => false
  end.

(** [`${x}`]: [undefined] is rendered as the text [undefined]. *)
Definition interpolate (x : option string) : string :=
  match x with
  | Some s => s
  | None => "undefined"
  end.

(** [a.slice(1)] and [a.slice(0, -1)] *)
Definition slice_from_1 (a : list string) : list string := tl a.
Definition slice_but_last (a : list string) : list string := removelast a.

(** Truthiness of a string: only the empty string is falsy. *)
Definition truthy (s : string) : bool := negb (s =? "")%string.

End JS.

(** ** The prefix router *)

Definition is_path_separator (c : ascii) : bool :=
  (c =? "/")%char || (c =? "\")%char.

Definition is_dot (c : ascii) : bool := (c =? ".")%char.

(** The segments of a logical path, the final file name included. *)
Definition segments (path : string) : list string :=
  JS.split is_path_separator path.

(** [getPrefix]: [folders.pop()] takes the file name off the segments, and
    the [switch] routes on what is left. *)
Definition getPrefix (path : string) : string :=
  let parts := JS.split is_path_separator path in
  let filename := last parts "" in
  let folders := removelast parts in
  if JS.strict_eq (JS.at_index folders 0) "core" then
    if JS.strict_eq (JS.at_index folders 1) "features" then
      "core." ++ JS.interpolate (JS.at_index folders 2) ++ "."
    else
      "core."
  else if JS.strict_eq (JS.at_index folders 0) "addons" then
    "addon." ++ JS.join "_" (JS.slice_from_1 folders) ++ "."
  else if JS.strict_eq (JS.at_index folders 0) "assets" then
    let filename := JS.join "." (JS.slice_but_last (JS.split is_dot filename)) in
    "assets." ++ filename ++ "."
  else
    JS.interpolate (JS.at_index folders 0) ++ "."
      ++ JS.interpolate (JS.at_index folders 1) ++ ".".

(** ** JSON values and objects *)

(** What [JSON.parse] returns.  A number is identified by the text
    [Number.prototype.toString] gives for it; an object by its own properties
    in enumeration order. *)
Inductive json : Type :=
| JNull
| JBool (b : bool)
| JNumber (repr : string)
| JString (s : string)
| JArray (items : list json)
| JObject (props : list (string * json)).

(** The own properties of an object holding JSON values, in the order
    [for ... in], [Object.keys] and [JSON.stringify] visit them. *)
Abbreviation obj := (list (string * json)) (only parsing).

Definition keys (o : obj) : list string := map fst o.

(** What an object created by [{}] can have as its prototype in this task:
    [Object.prototype], nothing (after [o.__proto__ = null]), or a parsed
    object or array (after [o.__proto__ = parsed]). *)
Inductive prototype : Type :=
| ObjectPrototype
| NullPrototype
| ParsedPrototype (value : json).

(** An object created by [{}]: its own properties and its prototype. *)
Record object : Type := { own :> obj; proto : prototype }.

(** [{}] *)
Definition empty : object := {| own := []; proto := ObjectPrototype |}.

Module Obj.

Definition is_digit (c : ascii) : bool :=
  let n := nat_of_ascii c in (48 <=? n)%nat && (n <=? 57)%nat.

Fixpoint digits_value (s : string) (acc : N) : option N :=
  match s with
  | EmptyString => Some acc
  | String c rest =>
      if is_digit c then digits_value rest (acc * 10 + (N_of_ascii c - 48))%N
      else None
  end.

(** An array index: the canonical decimal text of an integer below
    [2^32 - 1].  Such keys are enumerated first, in numeric order. *)
Definition array_index (k : string) : option N :=
  match k with
  | EmptyString => None
  | String c rest =>
      if (c =? "0")%char && negb (rest =? "")%string then None
      else match digits_value k 0 with
           | Some n => if (n <? 4294967295)%N then Some n else None
           | None => None
           end
  end.

(** The value of the own property [k], if there is one. *)
Fixpoint get (o : obj) (k : string) : option json :=
  match o with
  | [] => None
  | (k', v) :: rest => if (k' =? k)%string then Some v else get rest k
  end.

(** Whether [k] is an own property: what the built-in [hasOwnProperty]
    answers. *)
Definition has (o : obj) (k : string) : bool :=
  match get o k with Some _ => true | None => false end.

(** Assignment to an existing own property: the value changes, the position
    in the enumeration order does not. *)
Fixpoint update (o : obj) (k : string) (v : json) : obj :=
  match o with
  | [] => []
  | (k', v') :: rest =>
      if (k' =? k)%string then (k', v) :: rest else (k', v') :: update rest k v
  end.

(** A new array-index key goes among the array indices, in numeric order. *)
Fixpoint insert_index (n : N) (k : string) (v : json) (o : obj) : obj :=
  match o with
  | [] => [(k, v)]
  | (k', v') :: rest =>
      match array_index k' with
      | Some n' =>
          if (n' <? n)%N then (k', v') :: insert_index n k v rest
          else (k, v) :: o
      | None => (k, v) :: o
      end
  end.

(** A new own property, placed as [[OwnPropertyKeys]] orders it. *)
Definition create (o : obj) (k : string) (v : json) : obj :=
  match array_index k with
  | Some n => insert_index n k v o
  | None => (o ++ [(k, v)])%list
  end.

(** An assignment that is not taken by an accessor: the own property [k]
    is updated, or created if there is none. *)
Definition put (o : obj) (k : string) (v : json) : obj :=
  if has o k then update o k v else create o k v.

(** Whether the search for [__proto__] along a prototype chain ends at the
    accessor of [Object.prototype].  It does not with no prototype at all,
    nor when a parsed object on the way has an own property of that name
    ([JSON.parse] creates one for the key [__proto__]). *)
Definition reaches_proto_accessor (p : prototype) : bool :=
  match p with
  | ObjectPrototype => true
  | NullPrototype => false
  | ParsedPrototype (JObject props) => negb (has props "__proto__")
  | ParsedPrototype _ => true
  end.

(** The setter of [Object.prototype.__proto__]: an object, an array or
    [null] becomes the prototype; any other value is ignored. *)
Definition set_prototype (o : object) (v : json) : object :=
  match v with
  | JObject _ | JArray _ => {| own := own o; proto := ParsedPrototype v |}
  | JNull => {| own := own o; proto := NullPrototype |}
  | JBool _ | JNumber _ | JString _ => o
  end.

(** [o[k] = v].  Without an own property [__proto__], an assignment to
    that key goes to the inherited accessor, if the object inherits it, and
    no own property is created.  Every other assignment updates the own
    property [k] in place or creates it. *)
Definition set (o : object) (k : string) (v : json) : object :=
  if (k =? "__proto__")%string && negb (has o k)
     && reaches_proto_accessor (proto o)
  then set_prototype o v
  else {| own := put o k v; proto := proto o |}.

End Obj.

(** The index keys ["0"], ["1"], ... of an array or a string. *)
Definition index_key (i : nat) : string :=
  NilEmpty.string_of_uint (Nat.to_uint i).

Definition indexed (vs : list json) : list (string * json) :=
  combine (map index_key (seq 0 (List.length vs))) vs.

Definition code_units (s : string) : list json :=
  map (fun c => JString (String c EmptyString)) (list_ascii_of_string s).

(** The own enumerable properties of a parsed value: those of an object, the
    elements of an array and the code units of a string under their indices,
    and none for [null], a boolean or a number. *)
Definition own_properties (v : json) : list (string * json) :=
  match v with
  | JObject props => props
  | JArray items => indexed items
  | JString s => indexed (code_units s)
  | JNull | JBool _ | JNumber _ => []
  end.

(** A parsed value as the object a [for ... in] loop and a property lookup
    see.  Its prototype ([Object.prototype], or [Array.prototype] or
    [String.prototype], which inherit from it) has no enumerable property
    and gives it the methods of [Object.prototype]. *)
Definition as_object (v : json) : object :=
  {| own := own_properties v; proto := ObjectPrototype |}.

(** ** Exceptions *)

(** The one exception the task can raise itself: calling what is not a
    function. *)
Inductive error : Type := TypeError.

Inductive result (A : Type) : Type :=
| Ok (a : A)
| Raise (e : error).

Arguments Ok {A} a.
Arguments Raise {A} e.

Definition bind {A B : Type} (r : result A) (f : A -> result B) : result B :=
  match r with
  | Ok a => f a
  | Raise e => Raise e
  end.

Notation "x <- r ;; k" := (bind r (fun x => k))
  (at level 61, r at next level, right associativity).

(** ** Enumeration and the guard of the loops *)

(** Whether [o.hasOwnProperty] is the method of [Object.prototype]: no own
    property of that name, and none on a parsed prototype, hides it, and the
    prototype chain reaches [Object.prototype]. *)
Definition builtin_hasOwnProperty (o : object) : bool :=
  if Obj.has o "hasOwnProperty" then false
  else match proto o with
       | ObjectPrototype => true
       | NullPrototype => false
       | ParsedPrototype (JObject props) => negb (Obj.has props "hasOwnProperty")
       | ParsedPrototype _ => true
       end.

(** [o.hasOwnProperty(k)]: a parsed value or [undefined] in the place of the
    method is not a function, and the call raises [TypeError]. *)
Definition hasOwnProperty (o : object) (k : string) : result bool :=
  if builtin_hasOwnProperty o then Ok (Obj.has o k) else Raise TypeError.

(** The enumerable properties an object inherits from a parsed prototype and
    does not have itself. *)
Definition inherited (o : object) : list (string * json) :=
  match proto o with
  | ParsedPrototype value =>
      filter (fun p : string * json => negb (Obj.has o (fst p)))
             (own_properties value)
  | ObjectPrototype | NullPrototype => []
  end.

(** [for (k in o)]: the own properties, then the inherited ones, each key
    with the value [o[k]]. *)
Definition for_in (o : object) : list (string * json) :=
  (own o ++ inherited o)%list.

(** ** The merger *)

(** [addProperties(target, source, prefix)]: the loop visits each property
    of [source], asks [source.hasOwnProperty(property)], and assigns the
    value to [target] under the prefixed key.  The result is [target] after
    the loop, unless the guard raises. *)
Definition addProperties (target : object) (source : json) (prefix : string)
    : result object :=
  fold_left
    (fun reached '(property, value) =>
       target <- reached ;;
       owned <- hasOwnProperty (as_object source) property ;;
       if owned then Ok (Obj.set target (prefix ++ property) value)
       else Ok target)
    (for_in (as_object source)) (Ok target).

(** ** The serializer *)

(** [Array.prototype.sort] without a comparison function orders strings by
    code unit. *)
Module CodeUnitOrder <: TotalLeBool.
Definition t := string.
Definition leb := String.leb.
Definition leb_total : forall a1 a2, leb a1 a2 = true \/ leb a2 a1 = true :=
  String.leb_total.
End CodeUnitOrder.

Module ArraySort := Sort CodeUnitOrder.

Module JSON.

Definition dquote : ascii := "034"%char.
Definition newline : string := String "010"%char EmptyString.

Definition hex_digit (n : N) : ascii :=
  match String.get (N.to_nat n) "0123456789abcdef" with
  | Some c => c
  | None => "0"%char
  end.

(** The escape [QuoteJSONString] gives one code unit. *)
Definition quote_code_unit (c : ascii) : string :=
  let n := N_of_ascii c in
  if (n =? 8)%N then "\b"
  else if (n =? 9)%N then "\t"
  else if (n =? 10)%N then "\n"
  else if (n =? 12)%N then "\f"
  else if (n =? 13)%N then "\r"
  else if (n =? 34)%N then String "\"%char (String dquote EmptyString)
  else if (n =? 92)%N then "\\"
  else if (n <? 32)%N then
    "\u00" ++ String (hex_digit (n / 16)) (String (hex_digit (n mod 16)) EmptyString)
  else String c EmptyString.

Fixpoint quote_body (s : string) : string :=
  match s with
  | EmptyString => EmptyString
  | String c rest => quote_code_unit c ++ quote_body rest
  end.

Definition QuoteJSONString (s : string) : string :=
  String dquote (quote_body s ++ String dquote EmptyString).

Definition is_finite (repr : string) : bool :=
  negb ((repr =? "Infinity")%string || (repr =? "-Infinity")%string
        || (repr =? "NaN")%string).

(** Members inside the brackets [open] and [close], as
    [SerializeJSONObject] and [SerializeJSONArray] lay them out. *)
Definition wrap (gap indent opening closing : string) (partial : list string) : string :=
  match partial with
  | [] => opening ++ closing
  | _ =>
      let stepback := indent in
      let indent := indent ++ gap in
      if (gap =? "")%string then
        opening ++ JS.join "," partial ++ closing
      else
        opening ++ newline ++ indent
          ++ JS.join ("," ++ newline ++ indent) partial
          ++ newline ++ stepback ++ closing
  end.

(** [SerializeJSONProperty] on a parsed value, at indentation [indent]. *)
Fixpoint serialize (gap indent : string) (v : json) {struct v} : string :=
  match v with
  | JNull => "null"
  | JBool true => "true"
  | JBool false => "false"
  | JNumber repr => if is_finite repr then repr else "null"
  | JString s => QuoteJSONString s
  | JArray items =>
      wrap gap indent "[" "]" (map (serialize gap (indent ++ gap)) items)
  | JObject props =>
      wrap gap indent "{" "}"
        (map (fun p : string * json =>
                QuoteJSONString (fst p) ++ ":"
                  ++ (if (gap =? "")%string then "" else " ")
                  ++ serialize gap (indent ++ gap) (snd p))
             props)
  end.

(** [JSON.stringify(value, null, 4)] *)
Definition stringify4 (v : json) : string := serialize "    " "" v.

End JSON.

(** [bufferFrom(text)]: the UTF-8 encoding of the text. *)
Definition utf8 (c : ascii) : list byte :=
  let n := N_of_ascii c in
  if (n <? 128)%N then [byte_of_ascii c]
  else [byte_of_ascii (ascii_of_N (192 + n / 64));
        byte_of_ascii (ascii_of_N (128 + n mod 64))].

Definition bufferFrom (text : string) : list byte :=
  flat_map utf8 (list_ascii_of_string text).

(** [treatMergedData], in its three steps. *)

(** The loop over [data]: it visits every property of [data], asks
    [data.hasOwnProperty(filepath)], and adds the properties of the value
    parsed from that file under the prefix of its logical path. *)
Definition merge (data : object) : result object :=
  fold_left
    (fun reached '(filepath, parsed) =>
       merged <- reached ;;
       owned <- hasOwnProperty data filepath ;;
       if owned then
         let prefix := getPrefix filepath in
         if JS.truthy prefix then addProperties merged parsed prefix
         else Ok merged
       else Ok merged)
    (for_in data) (Ok empty).

(** [Object.keys(merged).sort().forEach(...)]: each key is copied with the
    value [merged] holds for it (every key of [Object.keys(merged)] has
    one). *)
Definition order (merged : object) : object :=
  fold_left
    (fun mergedOrdered key =>
       match Obj.get merged key with
       | Some value => Obj.set mergedOrdered key value
       | None => mergedOrdered
       end)
    (ArraySort.sort (keys merged)) empty.

(** [JSON.stringify] writes the own properties of [mergedOrdered]. *)
Definition treatMergedData (data : object) : result (list byte) :=
  merged <- merge data ;;
  let mergedOrdered := order merged in
  Ok (bufferFrom (JSON.stringify4 (JObject mergedOrdered))).

(** ** The per-file step and the pipeline *)

(** A vinyl file, as far as the task reads it: its path, and whether its
    contents are absent ([isNull]), a stream ([isStream]) or a buffer, given
    here by the text [file.contents.toString()] yields. *)
Inductive contents : Type :=
| IsNull
| IsStream
| IsBuffer (text : string).

Record File : Type := { path : string; file_contents : contents }.

(** What the pipeline accumulates: the object [data], and the lines written
    with [console.error]. *)
Record State : Type := { data : object; console : list string }.

Definition initial : State := {| data := empty; console := [] |}.

(** The logical path [treatFile] computes from [file.path]: the text after
    the last [/src/app/] (or its backslash form), else after the last [/src/]
    (or its backslash form). *)
Definition logical_path (filePath : string) : string :=
  let prefixLength := 9%Z in
  let srcPos := JS.lastIndexOf filePath "/src/app/" in
  let srcPos :=
    if (srcPos <? 0)%Z then JS.lastIndexOf filePath "\src\app\" else srcPos in
  let '(prefixLength, srcPos) :=
    if (srcPos <? 0)%Z then
      let srcPos := JS.lastIndexOf filePath "/src/" in
      let srcPos :=
        if (srcPos <? 0)%Z then JS.lastIndexOf filePath "\src\" else srcPos in
      (5%Z, srcPos)
    else (prefixLength, srcPos) in
  JS.substr filePath (srcPos + prefixLength).

(** The function [run] maps over [langPaths]. *)
Definition resolvePath (path : string) : string :=
  if JS.endsWith path ".json" then path
  else
    let path := if negb (JS.endsWith path "/") then path ++ "/" else path in
    path ++ "lang.json".

Section Pipeline.

(** [JSON.parse]: [None] where it throws [SyntaxError]. *)
Variable JSON_parse : string -> option json.

(** [treatFile(file, data)].  The assignment to [data] happens only once
    [JSON.parse] has returned; the [catch] block reports and goes on. *)
Definition treatFile (file : File) (st : State) : State :=
  match file_contents file with
  | IsNull | IsStream => st
  | IsBuffer text =>
      let filePath := logical_path (path file) in
      match JSON_parse text with
      | Some parsed =>
          {| data := Obj.set (data st) filePath parsed; console := console st |}
      | None =>
          {| data := data st;
             console := (console st ++ ["Error parsing JSON:"])%list |}
      end
  end.

(** The [through] stream of [run]: [treatFile] on every file in the order
    they arrive, then, if a file arrived at all, the call
    [treatMergedData(data)], whose result is the contents of the one joined
    file; if the call raises, no file is emitted. *)
Definition treatFiles (files : list File) (st : State) : State :=
  fold_left (fun st file => treatFile file st) files st.

Definition through (files : list File) : State * option (result (list byte)) :=
  let st := treatFiles files initial in
  (st, match files with
       | [] => None
       | firstFile :: _ => Some (treatMergedData (data st))
       end).

(** [gulp.src(paths, { allowEmpty: true })] piped through [slash()] and
    [clipEmptyFiles()]: the files found on disk. *)
Variable gulp_src : list string -> list File.

Definition run (langPaths : list string)
    : State * option (result (list byte)) :=
  let paths := map resolvePath langPaths in
  through (gulp_src paths).

End Pipeline.

(** A stand-in for [JSON.parse] on a few texts: it parses the serialization
    of each value of [known] back to that value, and rejects [{], which is
    not JSON.  It is used to run the pipeline on concrete files. *)
Fixpoint parse_known (known : list json) (text : string) : option json :=
  match known with
  | [] => None
  | v :: rest =>
      if (JSON.stringify4 v =? text)%string then Some v
      else parse_known rest text
  end.

(** * Vocabulary of the properties *)

(** [s] ends with [suffix]. *)
Definition ends_with (s suffix : string) : Prop :=
  exists front, s = front ++ suffix.

(** No code unit of [s] satisfies [p]. *)
Fixpoint free_of (p : ascii -> bool) (s : string) : bool :=
  match s with
  | EmptyString => true
  | String c rest => negb (p c) && free_of p rest
  end.

(** The [i]-th segment of a logical path, counted from 0, and its last. *)
Definition segment (path : string) (i : nat) : option string :=
  nth_error (segments path) i.

Definition final_segment (path : string) : string :=
  last (segments path) "".

(** A key that is neither an array index nor [__proto__]: assigning to it
    updates the property in place or appends a new one. *)
Definition plain_key (k : string) : Prop :=
  Obj.array_index k = None /\ k <> "__proto__".

(** ** The loops on own properties *)

(** What the loops of the task leave in [target], [merged] and
    [mergedOrdered] when no call of [hasOwnProperty] raises and no key is
    [__proto__]: the results of the task's functions are stated through
    these. *)

(** One assignment [o[k] = v] for an entry [(k, v)]. *)
Definition put_entry (o : obj) (entry : string * json) : obj :=
  Obj.put o (fst entry) (snd entry).

(** The loop of [addProperties] over the properties [props] of a source. *)
Definition assign_all (prefix : string) (props : list (string * json))
    (target : obj) : obj :=
  fold_left
    (fun target '(property, value) => Obj.put target (prefix ++ property) value)
    props target.


(** The body of the loop of [treatMergedData] over [data]. *)
Definition merge_step (merged : obj) (entry : string * json) : obj :=
  let '(filepath, parsed) := entry in
  let prefix := getPrefix filepath in
  if JS.truthy prefix then assign_all prefix (own_properties parsed) merged
  else merged.

(** What one entry of [data] contributes: each of its properties under the
    prefix of its logical path; and what all entries contribute, in order. *)
Definition prefixed (entry : string * json) : list (string * json) :=
  map (fun p : string * json => (getPrefix (fst entry) ++ fst p, snd p))
      (own_properties (snd entry)).

Definition produced (data : obj) : list (string * json) :=
  flat_map prefixed data.

(** The body of the [forEach] of [treatMergedData], and the value it copies. *)
Definition order_step (merged mergedOrdered : obj) (key : string) : obj :=
  match Obj.get merged key with
  | Some value => Obj.put mergedOrdered key value
  | None => mergedOrdered
  end.

Definition value_at (merged : obj) (key : string) : json :=
  match Obj.get merged key with
  | Some value => value
  | None => JNull
  end.

(** The object the loop over [data] builds from the entries of [data], the
    same in sorted order, and its serialization. *)
Definition merged_of (data : obj) : obj := fold_left merge_step data [].

Definition ordered_of (merged : obj) : obj :=
  fold_left (order_step merged) (ArraySort.sort (keys merged)) [].

Definition bytes_of (data : obj) : list byte :=
  bufferFrom (JSON.stringify4 (JObject (ordered_of (merged_of data)))).

(** One member of the top-level object in the output text. *)
Definition member_line (p : string * json) : string :=
  JSON.QuoteJSONString (fst p) ++ ": " ++ JSON.serialize "    " "    " (snd p).

(** [pat] occurs in [s]. *)
Definition occurs (pat s : string) : Prop :=
  exists front back, s = front ++ pat ++ back.

(** What [gulp-slash] does to a path: every backslash becomes a slash. *)
Fixpoint slash (p : string) : string :=
  match p with
  | EmptyString => EmptyString
  | String c rest =>
      String (if (c =? "\")%char then "/"%char else c) (slash rest)
  end.

(** The assignment [data[filePath] = ...] a file leads to, if any: a file
    without contents, a stream and a file [JSON.parse] rejects lead to
    none. *)
Definition assignment (JSON_parse : string -> option json) (file : File)
    : option (string * json) :=
  match file_contents file with
  | IsBuffer text =>
      match JSON_parse text with
      | Some parsed => Some (logical_path (path file), parsed)
      | None => None
      end
  | IsNull | IsStream => None
  end.

(** The assignments of a run, in the order the files arrive. *)
Definition assignments (JSON_parse : string -> option json)
    (files : list File) : list (string * json) :=
  flat_map
    (fun file =>
       match assignment JSON_parse file with
       | Some entry => [entry]
       | None => []
       end)
    files.

(** One assignment [data[filePath] = parsed]. *)
Definition assign (o : object) (entry : string * json) : object :=
  Obj.set o (fst entry) (snd entry).

(** The value assigned last to [k], if any. *)
Definition last_assigned (entries : list (string * json)) (k : string)
    : option json :=
  fold_left
    (fun found entry => if (fst entry =? k)%string then Some (snd entry) else found)
    entries None.

(** The distinct strings of a list, each at its first arrival. *)
Definition first_arrivals (l : list string) : list string :=
  fold_left
    (fun seen k => if existsb (String.eqb k) seen then seen else (seen ++ [k])%list)
    l [].

(** The files of a run whose contents [JSON.parse] rejects. *)
Definition rejected (JSON_parse : string -> option json) (file : File) : bool :=
  match file_contents file with
  | IsBuffer text =>
      match JSON_parse text with
      | Some _ => false
      | None => true
      end
  | IsNull | IsStream => false
  end.

(** The loop of [addProperties] on an object, when its guard holds. *)
Definition assign_each (prefix : string) (props : list (string * json))
    (target : object) : object :=
  fold_left
    (fun target '(property, value) => Obj.set target (prefix ++ property) value)
    props target.

(** A parsed value with an own property named [hasOwnProperty]: on such a
    value [source.hasOwnProperty] is that property, not a function. *)
Definition shadows_hasOwnProperty (v : json) : bool :=
  Obj.has (own_properties v) "hasOwnProperty".

(** Whether the loop of [treatMergedData] over [data] raises: the guard
    [data.hasOwnProperty] is not the built-in and the loop visits a
    property, or the value of an own property of [data] has an own property
    named [hasOwnProperty]. *)
Definition raises (data : object) : bool :=
  (negb (builtin_hasOwnProperty data)
   && match for_in data with [] => false | _ :: _ => true end)
  || existsb (fun entry : string * json => shadows_hasOwnProperty (snd entry))
             (own data).

(** * Sample inputs *)



(** Two entries that produce the same key, in both orders. *)
Definition colliding : object :=
  {| own := [("core/a.json", JObject [("title", JString "A")]);
             ("core/b.json", JObject [("title", JString "B")])];
     proto := ObjectPrototype |}.


(** Two files of one source root, a file outside any source root, and a file
    whose contents are not JSON. *)
Definition title_A : json := JObject [("title", JString "A")].
Definition title_B : json := JObject [("title", JString "B")].

Definition file_a : File :=
  {| path := "/app/src/app/core/a.json";
     file_contents := IsBuffer (JSON.stringify4 title_A) |}.

Definition file_b : File :=
  {| path := "/app/src/app/core/b.json";
     file_contents := IsBuffer (JSON.stringify4 title_B) |}.


Definition broken_file : File :=
  {| path := "/app/src/app/core/broken.json"; file_contents := IsBuffer "{" |}.

(** Two files of different source roots with the logical path
    [core/lang.json]. *)
Definition title_and_hint : json :=
  JObject [("title", JString "A"); ("hint", JString "H")].
Definition title_again : json := JObject [("title", JString "B")].

Definition first_root : File :=
  {| path := "/one/src/app/core/lang.json";
     file_contents := IsBuffer (JSON.stringify4 title_and_hint) |}.

Definition second_root : File :=
  {| path := "/two/src/core/lang.json";
     file_contents := IsBuffer (JSON.stringify4 title_again) |}.

(** A file without contents and a stream. *)
Definition null_file : File :=
  {| path := "/app/src/app/core/empty.json"; file_contents := IsNull |}.

Definition stream_file : File :=
  {| path := "/app/src/app/core/stream.json"; file_contents := IsStream |}.





(** A language file with a string named [hasOwnProperty]. *)
Definition with_hasOwnProperty : json :=
  JObject [("title", JString "A"); ("hasOwnProperty", JString "own")].

Definition shadowing_file : File :=
  {| path := "/app/src/app/core/shadow.json";
     file_contents := IsBuffer (JSON.stringify4 with_hasOwnProperty) |}.

(** A file whose logical path is [__proto__], holding [null]. *)
Definition proto_file : File :=
  {| path := "/app/src/__proto__"; file_contents := IsBuffer "null" |}.

(** * Properties *)

(** ** Strings *)

Lemma append_assoc : forall a b c : string, (a ++ b) ++ c = a ++ (b ++ c).
Proof.
  induction a as [|x a IH]; intros b c; simpl.
  - reflexivity.
  - now rewrite IH.
Qed.

Lemma length_append : forall a b : string,
  String.length (a ++ b) = String.length a + String.length b.
Proof.
  induction a as [|x a IH]; intros b; simpl; [reflexivity | now rewrite IH].
Qed.

Lemma substring_0_length : forall s, substring 0 (String.length s) s = s.
Proof.
  induction s as [|x s IH]; simpl; [reflexivity | now rewrite IH].
Qed.

Lemma substring_skip_append : forall a b m,
  substring (String.length a) m (a ++ b) = substring 0 m b.
Proof.
  induction a as [|x a IH]; intros b m; simpl.
  - reflexivity.
  - apply IH.
Qed.

Lemma substring_cut : forall k s,
  k <= String.length s ->
  s = substring 0 k s ++ substring k (String.length s - k) s.
Proof.
  induction k as [|k IH]; intros s Hk.
  - rewrite Nat.sub_0_r, substring_0_length. now destruct s.
  - destruct s as [|x s]; simpl in Hk; [lia |].
    simpl. f_equal. apply IH. lia.
Qed.

Lemma endsWith_iff : forall s suffix,
  JS.endsWith s suffix = true <-> ends_with s suffix.
Proof.
  intros s suffix. unfold JS.endsWith, ends_with. split.
  - intros H. apply andb_true_iff in H. destruct H as [Hle Heq].
    apply Nat.leb_le in Hle. apply String.eqb_eq in Heq.
    exists (substring 0 (String.length s - String.length suffix) s).
    pose proof (substring_cut (String.length s - String.length suffix) s) as Hcut.
    replace (String.length s - (String.length s - String.length suffix))
      with (String.length suffix) in Hcut by lia.
    rewrite Heq in Hcut. apply Hcut. lia.
  - intros [front ->]. rewrite length_append.
    apply andb_true_iff. split.
    + apply Nat.leb_le. lia.
    + replace (String.length front + String.length suffix - String.length suffix)
        with (String.length front) by lia.
      rewrite substring_skip_append, substring_0_length.
      apply String.eqb_refl.
Qed.

Lemma endsWith_false_iff : forall s suffix,
  JS.endsWith s suffix = false <-> ~ ends_with s suffix.
Proof.
  intros s suffix. rewrite <- endsWith_iff.
  destruct (JS.endsWith s suffix); split; intros H;
    try reflexivity; try discriminate; try (intros H'; discriminate).
  exfalso. now apply H.
Qed.

(** ** Splitting and joining *)

Lemma split_not_nil : forall sep s, JS.split sep s <> [].
Proof.
  intros sep s. destruct s as [|c s]; simpl; [discriminate |].
  destruct (sep c); [discriminate |].
  destruct (JS.split sep s); discriminate.
Qed.

Lemma split_app : forall sep a c b,
  sep c = true ->
  JS.split sep (a ++ String c b) = (JS.split sep a ++ JS.split sep b)%list.
Proof.
  intros sep a c b Hc. induction a as [|x a IH]; simpl.
  - now rewrite Hc.
  - destruct (sep x).
    + now rewrite IH.
    + rewrite IH. pose proof (split_not_nil sep a) as Hne.
      destruct (JS.split sep a); [contradiction | reflexivity].
Qed.

Lemma split_free : forall sep s, free_of sep s = true -> JS.split sep s = [s].
Proof.
  intros sep s. induction s as [|c s IH]; simpl; intros H.
  - reflexivity.
  - apply andb_true_iff in H. destruct H as [Hc Hs].
    apply negb_true_iff in Hc. rewrite Hc, (IH Hs). reflexivity.
Qed.

Lemma join_cons : forall sep x y l,
  JS.join sep (x :: y :: l) = x ++ sep ++ JS.join sep (y :: l).
Proof. reflexivity. Qed.

Lemma join_head : forall sep c w ws,
  JS.join sep (String c w :: ws) = String c (JS.join sep (w :: ws)).
Proof. intros sep c w [|w' ws]; reflexivity. Qed.

Lemma join_split_dot : forall s, JS.join "." (JS.split is_dot s) = s.
Proof.
  induction s as [|c s IH].
  - reflexivity.
  - simpl JS.split. pose proof (split_not_nil is_dot s) as Hne.
    destruct (is_dot c) eqn:Hc.
    + destruct (JS.split is_dot s) as [|w ws] eqn:Hs; [contradiction |].
      rewrite join_cons, IH. simpl.
      unfold is_dot in Hc. apply Ascii.eqb_eq in Hc. now subst c.
    + destruct (JS.split is_dot s) as [|w ws] eqn:Hs; [contradiction |].
      rewrite join_head, IH. reflexivity.
Qed.

(** The file name [stem.ext] loses its extension. *)
Lemma strip_extension : forall stem ext,
  free_of is_dot ext = true ->
  JS.join "." (JS.slice_but_last (JS.split is_dot (stem ++ "." ++ ext))) = stem.
Proof.
  intros stem ext Hext. unfold JS.slice_but_last.
  change ("." ++ ext) with (String "."%char ext).
  rewrite split_app by reflexivity.
  rewrite (split_free _ _ Hext), removelast_last.
  apply join_split_dot.
Qed.

(** ** The prefix router *)

(** Every prefix is some text followed by a dot. *)
Lemma getPrefix_shape : forall path, exists body, getPrefix path = body ++ ".".
Proof.
  intros path. unfold getPrefix.
  repeat match goal with
         | |- context [if ?b then _ else _] => destruct b
         end.
  - eexists. rewrite <- append_assoc. reflexivity.
  - now exists "core".
  - eexists. rewrite <- append_assoc. reflexivity.
  - eexists. rewrite <- append_assoc. reflexivity.
  - eexists. rewrite <- !append_assoc. reflexivity.
Qed.

Ltac decide_eqb :=
  repeat match goal with
         | |- context [(?a =? ?b)%string] =>
             destruct (String.eqb_spec a b);
             try discriminate; try congruence
         end.

Ltac route path :=
  unfold segment, getPrefix, JS.strict_eq, JS.at_index, JS.interpolate;
  fold (segments path);
  destruct (segments path) as [|s1 [|s2 [|s3 [|s4 more]]]];
  simpl; intros;
  repeat match goal with
         | H : Some _ = Some _ |- _ => injection H as H; subst
         | H : None = Some _ |- _ => discriminate H
         | H : _ <= _ |- _ => simpl in H
         end;
  try lia; decide_eqb.

(** C2, as the code has it.  A logical path of at least four segments that
    starts with [core/features] gets [core.<third-segment>.]; a path of at
    least two segments that starts with [core] and whose second segment is
    not [features], or is the file name, gets [core.]; a path of at least two
    segments that starts with [addons] gets [addon.], the segments after
    [addons] except the file name joined with [_], and a dot. *)
Theorem getPrefix_core_addons :
  (forall path third,
      segment path 0 = Some "core" ->
      segment path 1 = Some "features" ->
      segment path 2 = Some third ->
      4 <= List.length (segments path) ->
      getPrefix path = "core." ++ third ++ ".")
  /\ (forall path,
      segment path 0 = Some "core" ->
      2 <= List.length (segments path) ->
      segment path 1 <> Some "features" \/ List.length (segments path) = 2 ->
      getPrefix path = "core.")
  /\ (forall path,
      segment path 0 = Some "addons" ->
      2 <= List.length (segments path) ->
      getPrefix path
      = "addon." ++ JS.join "_" (removelast (tl (segments path))) ++ ".").
Proof.
  split; [| split].
  - intros path third. route path; reflexivity.
  - intros path. route path; try reflexivity;
      match goal with
      | H : _ \/ _ |- _ => destruct H as [Hne | Hlen]; [congruence | lia]
      end.
  - intros path. route path; reflexivity.
Qed.

Lemma getPrefix_core_addons_examples :
  getPrefix "core/features/calendar/strings.json" = "core.calendar."
  /\ getPrefix "core/strings.json" = "core."
  /\ getPrefix "addons/mod/forum/strings.json" = "addon.mod_forum.".
Proof.
  destruct getPrefix_core_addons as [Hfeature [Hcore Haddons]].
  split; [| split].
  - apply (Hfeature "core/features/calendar/strings.json" "calendar");
      first [reflexivity | vm_compute; lia].
  - apply (Hcore "core/strings.json");
      first [reflexivity | vm_compute; lia | right; reflexivity].
  - apply (Haddons "addons/mod/forum/strings.json");
      first [reflexivity | vm_compute; lia].
Defined.

(** C2 as stated fails: in [core/features/lang.json] the first segment is
    [core], the second is [features] and the third is [lang.json], and the
    prefix is not [core.lang.json.]; the single segment [core] does not get
    [core.], and the single segment [addons] does not get [addon..]. *)
Lemma getPrefix_core_addons_short_paths :
  segment "core/features/lang.json" 0 = Some "core"
  /\ segment "core/features/lang.json" 1 = Some "features"
  /\ segment "core/features/lang.json" 2 = Some "lang.json"
  /\ getPrefix "core/features/lang.json" = "core.undefined."
  /\ getPrefix "core/features/lang.json" <> "core." ++ "lang.json" ++ "."
  /\ segment "core" 0 = Some "core"
  /\ getPrefix "core" = "undefined.undefined."
  /\ segment "addons" 0 = Some "addons"
  /\ getPrefix "addons" = "undefined.undefined.".
Proof.
  repeat split; try reflexivity. discriminate.
Qed.

(** What the rules leave out.  A path of one segment has no folder at all,
    and a file directly under [core/features] has no third folder: the
    interpolation renders the missing folders as [undefined]. *)
Lemma getPrefix_single_segment : forall path,
  free_of is_path_separator path = true ->
  getPrefix path = "undefined.undefined.".
Proof.
  intros path Hfree. unfold getPrefix.
  rewrite (split_free _ _ Hfree). reflexivity.
Qed.

Lemma getPrefix_core_features_file : forall file,
  free_of is_path_separator file = true ->
  getPrefix ("core/features/" ++ file) = "core.undefined.".
Proof.
  intros file Hfree. unfold getPrefix.
  change ("core/features/" ++ file) with ("core" ++ String "/" ("features" ++ String "/" file)).
  rewrite !split_app by reflexivity.
  rewrite (split_free _ _ Hfree). reflexivity.
Qed.

Lemma nth_error_removelast : forall (l : list string) i,
  i + 1 < List.length l -> nth_error (removelast l) i = nth_error l i.
Proof.
  induction l as [|x l IH]; intros i Hi; simpl in Hi; [lia |].
  destruct l as [|y l]; [simpl in Hi; lia |].
  destruct i as [|i]; [reflexivity |].
  change (nth_error (removelast (y :: l)) i = nth_error (y :: l) i).
  apply IH. simpl in *. lia.
Qed.

Lemma strict_eq_other : forall s lit,
  s <> lit -> JS.strict_eq (Some s) lit = false.
Proof. intros s lit H. now apply String.eqb_neq. Qed.

(** C3, as the code has it.  A logical path of at least two segments that
    starts with [assets] and whose file name is [stem.ext], [ext] holding no
    dot, gets [assets.stem.]; a logical path of at least three segments whose
    first segment is none of [core], [addons], [assets] gets
    [<first-segment>.<second-segment>.]. *)
Theorem getPrefix_assets_other :
  (forall path stem ext,
      segment path 0 = Some "assets" ->
      2 <= List.length (segments path) ->
      final_segment path = stem ++ "." ++ ext ->
      free_of is_dot ext = true ->
      getPrefix path = "assets." ++ stem ++ ".")
  /\ (forall path first second,
      segment path 0 = Some first ->
      segment path 1 = Some second ->
      first <> "core" -> first <> "addons" -> first <> "assets" ->
      3 <= List.length (segments path) ->
      getPrefix path = first ++ "." ++ second ++ ".").
Proof.
  split.
  - intros path stem ext H0 Hlen Hfin Hext.
    unfold segment in H0. unfold final_segment in Hfin.
    unfold getPrefix, JS.at_index. fold (segments path). cbv zeta.
    rewrite nth_error_removelast, H0 by lia.
    rewrite Hfin, strip_extension by assumption.
    reflexivity.
  - intros path first second H0 H1 Hcore Haddons Hassets Hlen.
    unfold segment in H0, H1.
    unfold getPrefix, JS.at_index. fold (segments path). cbv zeta.
    rewrite !nth_error_removelast, H0, H1 by lia.
    rewrite !strict_eq_other by assumption.
    reflexivity.
Qed.

Lemma getPrefix_assets_other_examples :
  getPrefix "assets/en.json" = "assets.en."
  /\ getPrefix "custom/plugin/strings.json" = "custom.plugin.".
Proof.
  destruct getPrefix_assets_other as [Hassets Hother].
  split.
  - apply (Hassets "assets/en.json" "en" "json");
      first [reflexivity | vm_compute; lia].
  - apply (Hother "custom/plugin/strings.json" "custom" "plugin");
      first [reflexivity | discriminate | vm_compute; lia].
Defined.

(** C3 as stated fails: [custom/lang.json] starts with a segment that is none
    of [core], [addons], [assets], its second segment is [lang.json], and its
    prefix is not [custom.lang.json.]; the file name [en] of [assets/en] has
    no extension to remove, and the prefix is not [assets.en.]; the single
    segment [assets] does not get an [assets.] prefix at all. *)
Lemma getPrefix_assets_other_short_paths :
  segment "custom/lang.json" 0 = Some "custom"
  /\ segment "custom/lang.json" 1 = Some "lang.json"
  /\ getPrefix "custom/lang.json" = "custom.undefined."
  /\ getPrefix "custom/lang.json" <> "custom" ++ "." ++ "lang.json" ++ "."
  /\ segment "assets/en" 0 = Some "assets"
  /\ final_segment "assets/en" = "en"
  /\ getPrefix "assets/en" = "assets.."
  /\ getPrefix "assets/en" <> "assets." ++ "en" ++ "."
  /\ segment "assets" 0 = Some "assets"
  /\ getPrefix "assets" = "undefined.undefined.".
Proof.
  repeat split; try reflexivity; discriminate.
Qed.

(** C8, as the code has it.  Every prefix is a non-empty string that ends
    with a dot. *)
Theorem getPrefix_nonempty_dot : forall path,
  getPrefix path <> "" /\ ends_with (getPrefix path) ".".
Proof.
  intros path. destruct (getPrefix_shape path) as [body Hbody]. split.
  - rewrite Hbody. destruct body; discriminate.
  - now exists body.
Qed.

(** C8 as stated fails: the prefix of [assets/en], an [assets] file name
    without an extension, ends with two dots, and so does the prefix of a
    path whose only folder is [addons]. *)
Lemma getPrefix_two_trailing_dots :
  getPrefix "assets/en" = "assets.."
  /\ ends_with (getPrefix "assets/en") ".."
  /\ getPrefix "addons/lang.json" = "addon.."
  /\ ends_with (getPrefix "addons/lang.json") "..".
Proof.
  repeat split; try reflexivity.
  - now exists "assets".
  - now exists "addon".
Qed.

(** ** The path resolution of [run] *)

(** C9.  The paths [run] hands to [gulp.src] are the candidate paths, each
    resolved in place: a path that ends in [.json] is left as it is, and any
    other gets [lang.json] appended, after a [/] unless the path ends with
    one already. *)
Theorem run_resolves_paths : forall langPaths,
  (forall JSON_parse gulp_src,
      run JSON_parse gulp_src langPaths
      = through JSON_parse (gulp_src (map resolvePath langPaths)))
  /\ forall i path,
      nth_error langPaths i = Some path ->
      exists resolved,
        nth_error (map resolvePath langPaths) i = Some resolved
        /\ (ends_with path ".json" -> resolved = path)
        /\ (~ ends_with path ".json" -> ends_with path "/" ->
            resolved = path ++ "lang.json")
        /\ (~ ends_with path ".json" -> ~ ends_with path "/" ->
            resolved = path ++ "/lang.json").
Proof.
  intros langPaths. split; [reflexivity |].
  intros i path Hi. exists (resolvePath path).
  split; [now apply map_nth_error |].
  unfold resolvePath.
  destruct (JS.endsWith path ".json") eqn:Hjson.
  - apply endsWith_iff in Hjson.
    repeat split; intros; first [reflexivity | contradiction].
  - apply endsWith_false_iff in Hjson.
    destruct (JS.endsWith path "/") eqn:Hslash; simpl.
    + apply endsWith_iff in Hslash.
      repeat split; intros; first [reflexivity | contradiction].
    + apply endsWith_false_iff in Hslash.
      repeat split; intros; first [contradiction | apply append_assoc].
Qed.

Lemma run_resolves_paths_example :
  exists resolved,
    nth_error (map resolvePath ["src/core/features/course"; "src/addons/"; "src/assets/lang/en.json"]) 0
    = Some resolved
    /\ (ends_with "src/core/features/course" ".json" ->
        resolved = "src/core/features/course")
    /\ (~ ends_with "src/core/features/course" ".json" ->
        ends_with "src/core/features/course" "/" ->
        resolved = "src/core/features/course" ++ "lang.json")
    /\ (~ ends_with "src/core/features/course" ".json" ->
        ~ ends_with "src/core/features/course" "/" ->
        resolved = "src/core/features/course" ++ "/lang.json").
Proof.
  apply (proj2 (run_resolves_paths
                  ["src/core/features/course"; "src/addons/";
                   "src/assets/lang/en.json"])
               0 "src/core/features/course").
  reflexivity.
Defined.

(** ** Objects *)

Lemma has_In : forall o k, Obj.has o k = true <-> In k (keys o).
Proof.
  unfold Obj.has. induction o as [|[k' v'] o IH]; intros k; simpl.
  - split; [discriminate | contradiction].
  - destruct (String.eqb_spec k' k) as [-> | Hne].
    + split; auto.
    + rewrite IH. split; [auto | intros [H | H]; [contradiction | exact H]].
Qed.

Lemma has_false_In : forall o k, Obj.has o k = false <-> ~ In k (keys o).
Proof.
  intros o k. rewrite <- has_In. destruct (Obj.has o k); split; intros H;
    try reflexivity; try discriminate; try (intros H'; discriminate).
  exfalso. now apply H.
Qed.

Lemma get_In : forall o k v, Obj.get o k = Some v -> In (k, v) o.
Proof.
  induction o as [|[k' v'] o IH]; intros k v; simpl; [discriminate |].
  destruct (String.eqb_spec k' k) as [-> | Hne].
  - intros H. injection H as ->. now left.
  - intros H. right. now apply IH.
Qed.

Lemma In_get : forall o k v,
  NoDup (keys o) -> In (k, v) o -> Obj.get o k = Some v.
Proof.
  induction o as [|[k' v'] o IH]; intros k v Hnd Hin; simpl in *; [contradiction |].
  inversion Hnd as [|? ? Hnotin Hnd']; subst.
  destruct Hin as [Heq | Hin].
  - injection Heq as -> ->. now rewrite String.eqb_refl.
  - destruct (String.eqb_spec k' k) as [-> | Hne].
    + exfalso. apply Hnotin. apply (in_map fst) in Hin. exact Hin.
    + now apply IH.
Qed.

Lemma keys_update : forall o k v, keys (Obj.update o k v) = keys o.
Proof.
  induction o as [|[k' v'] o IH]; intros k v; simpl; [reflexivity |].
  destruct (k' =? k)%string; simpl; [reflexivity | now rewrite IH].
Qed.

Lemma get_update_same : forall o k v,
  In k (keys o) -> Obj.get (Obj.update o k v) k = Some v.
Proof.
  induction o as [|[k' v'] o IH]; intros k v Hin; simpl in *; [contradiction |].
  destruct (String.eqb_spec k' k) as [-> | Hne]; simpl.
  - now rewrite String.eqb_refl.
  - destruct (String.eqb_spec k' k) as [-> | _]; [contradiction |].
    apply IH. destruct Hin as [H | H]; [contradiction | exact H].
Qed.

Lemma get_update_other : forall o k v k',
  k' <> k -> Obj.get (Obj.update o k v) k' = Obj.get o k'.
Proof.
  induction o as [|[k0 v0] o IH]; intros k v k' Hne; simpl; [reflexivity |].
  destruct (String.eqb_spec k0 k) as [-> | Hk]; simpl.
  - destruct (String.eqb_spec k k') as [-> | _]; [contradiction | reflexivity].
  - destruct (k0 =? k')%string; [reflexivity | now apply IH].
Qed.

Lemma update_update : forall o k v1 v2,
  Obj.update (Obj.update o k v1) k v2 = Obj.update o k v2.
Proof.
  induction o as [|[k' v'] o IH]; intros k v1 v2; simpl; [reflexivity |].
  destruct (String.eqb_spec k' k) as [-> | Hne]; simpl.
  - now rewrite String.eqb_refl.
  - destruct (String.eqb_spec k' k) as [-> | _]; [contradiction |].
    now rewrite IH.
Qed.

Lemma get_app : forall o1 o2 k,
  Obj.get (o1 ++ o2)%list k
  = match Obj.get o1 k with Some v => Some v | None => Obj.get o2 k end.
Proof.
  induction o1 as [|[k' v'] o1 IH]; intros o2 k; simpl; [reflexivity |].
  destruct (k' =? k)%string; [reflexivity | apply IH].
Qed.

Lemma update_app_new : forall o k v1 v2,
  ~ In k (keys o) ->
  Obj.update (o ++ [(k, v1)])%list k v2 = (o ++ [(k, v2)])%list.
Proof.
  induction o as [|[k' v'] o IH]; intros k v1 v2 Hnotin; simpl in *.
  - now rewrite String.eqb_refl.
  - destruct (String.eqb_spec k' k) as [-> | Hne].
    + exfalso. apply Hnotin. now left.
    + f_equal. apply IH. intros H. apply Hnotin. now right.
Qed.

Lemma keys_insert_index : forall n k v o k',
  In k' (keys (Obj.insert_index n k v o)) <-> k' = k \/ In k' (keys o).
Proof.
  intros n k v. induction o as [|[k0 v0] o IH]; intros k'; simpl.
  - intuition.
  - destruct (Obj.array_index k0) as [n0 |]; [destruct (n0 <? n)%N |]; simpl;
      try rewrite IH; intuition.
Qed.

Lemma get_insert_index : forall n k v o k',
  ~ In k (keys o) ->
  Obj.get (Obj.insert_index n k v o) k'
  = if (k =? k')%string then Some v else Obj.get o k'.
Proof.
  intros n k v. induction o as [|[k0 v0] o IH]; intros k' Hnotin; simpl in *.
  - reflexivity.
  - assert (Hk0 : k0 <> k) by (intros ->; apply Hnotin; now left).
    assert (Hrest : ~ In k (keys o)) by (intros H; apply Hnotin; now right).
    destruct (Obj.array_index k0) as [n0 |]; [destruct (n0 <? n)%N |]; simpl;
      try reflexivity.
    rewrite (IH k' Hrest).
    destruct (String.eqb_spec k0 k') as [-> | _]; [| reflexivity].
    destruct (String.eqb_spec k k') as [-> | _]; [contradiction | reflexivity].
Qed.

Lemma update_insert_index : forall n k v1 v2 o,
  ~ In k (keys o) ->
  Obj.update (Obj.insert_index n k v1 o) k v2 = Obj.insert_index n k v2 o.
Proof.
  intros n k v1 v2. induction o as [|[k0 v0] o IH]; intros Hnotin; simpl in *.
  - now rewrite String.eqb_refl.
  - assert (Hk0 : k0 <> k) by (intros ->; apply Hnotin; now left).
    assert (Hrest : ~ In k (keys o)) by (intros H; apply Hnotin; now right).
    destruct (Obj.array_index k0) as [n0 |]; [destruct (n0 <? n)%N |]; simpl.
    + destruct (String.eqb_spec k0 k) as [-> | _]; [contradiction |].
      now rewrite IH.
    + rewrite String.eqb_refl. reflexivity.
    + rewrite String.eqb_refl. reflexivity.
Qed.

Lemma NoDup_insert_index : forall n k v o,
  ~ In k (keys o) -> NoDup (keys o) -> NoDup (keys (Obj.insert_index n k v o)).
Proof.
  intros n k v. induction o as [|[k0 v0] o IH]; intros Hnotin Hnd; simpl in *.
  - constructor; [intros [] | constructor].
  - assert (Hfresh : NoDup (k :: k0 :: keys o)) by (now constructor).
    inversion Hnd as [|? ? Hk0 Hnd']; subst.
    destruct (Obj.array_index k0) as [n0 |]; [destruct (n0 <? n)%N |]; simpl;
      try exact Hfresh.
    constructor.
    + rewrite keys_insert_index. intros [-> | H]; [| contradiction].
      apply Hnotin. now left.
    + apply IH; [| exact Hnd']. intros H. apply Hnotin. now right.
Qed.

(** Reading back what was assigned. *)
Lemma get_put_same : forall o k v, Obj.get (Obj.put o k v) k = Some v.
Proof.
  intros o k v. unfold Obj.put, Obj.create.
  destruct (Obj.has o k) eqn:Hhas.
  - apply get_update_same. now apply has_In.
  - apply has_false_In in Hhas.
    destruct (Obj.array_index k) as [n |].
    + rewrite get_insert_index by assumption. now rewrite String.eqb_refl.
    + rewrite get_app. simpl. rewrite String.eqb_refl.
      destruct (Obj.get o k) eqn:Hget; [| reflexivity].
      exfalso. apply Hhas. apply get_In in Hget.
      apply (in_map fst) in Hget. exact Hget.
Qed.

(** An assignment leaves every other property as it was. *)
Lemma get_put_other : forall o k v k',
  k' <> k -> Obj.get (Obj.put o k v) k' = Obj.get o k'.
Proof.
  intros o k v k' Hne. unfold Obj.put, Obj.create.
  destruct (Obj.has o k) eqn:Hhas.
  - now apply get_update_other.
  - apply has_false_In in Hhas.
    destruct (Obj.array_index k) as [n |].
    + rewrite get_insert_index by assumption.
      destruct (String.eqb_spec k k') as [-> | _]; [contradiction | reflexivity].
    + rewrite get_app. simpl.
      destruct (String.eqb_spec k k') as [-> | _]; [contradiction |].
      now destruct (Obj.get o k').
Qed.

Lemma keys_put : forall o k v k',
  In k' (keys (Obj.put o k v)) ->  k' = k \/ In k' (keys o).
Proof.
  intros o k v k'. unfold Obj.put, Obj.create.
  destruct (Obj.has o k).
  - rewrite keys_update. auto.
  - destruct (Obj.array_index k) as [n |].
    + now rewrite keys_insert_index.
    + unfold keys. rewrite map_app, in_app_iff. simpl. intuition.
Qed.

Lemma keys_put_old : forall o k v k',
  In k' (keys o) -> In k' (keys (Obj.put o k v)).
Proof.
  intros o k v k' Hin. unfold Obj.put, Obj.create.
  destruct (Obj.has o k).
  - now rewrite keys_update.
  - destruct (Obj.array_index k) as [n |].
    + rewrite keys_insert_index. now right.
    + unfold keys. rewrite map_app, in_app_iff. now left.
Qed.

Lemma NoDup_put : forall o k v,
  NoDup (keys o) -> NoDup (keys (Obj.put o k v)).
Proof.
  intros o k v Hnd. unfold Obj.put, Obj.create.
  destruct (Obj.has o k) eqn:Hhas.
  - now rewrite keys_update.
  - apply has_false_In in Hhas.
    destruct (Obj.array_index k) as [n |].
    + now apply NoDup_insert_index.
    + unfold keys. rewrite map_app. simpl.
      apply NoDup_app; [exact Hnd | constructor; [intros [] | constructor] |].
      intros x Hx [<- | []]. contradiction.
Qed.

(** Assigning twice to one key is assigning the second value: the first
    value is gone, whatever it held. *)
Lemma put_put : forall o k v1 v2,
  Obj.put (Obj.put o k v1) k v2 = Obj.put o k v2.
Proof.
  intros o k v1 v2. unfold Obj.put at 2 3. unfold Obj.create.
  destruct (Obj.has o k) eqn:Hhas.
  - unfold Obj.put.
    assert (H : Obj.has (Obj.update o k v1) k = true).
    { apply has_In. rewrite keys_update. now apply has_In. }
    rewrite H. apply update_update.
  - pose proof Hhas as Hnotin. apply has_false_In in Hnotin.
    destruct (Obj.array_index k) as [n |] eqn:Hidx.
    + unfold Obj.put.
      assert (H : Obj.has (Obj.insert_index n k v1 o) k = true).
      { apply has_In. rewrite keys_insert_index. now left. }
      rewrite H. now apply update_insert_index.
    + unfold Obj.put.
      assert (H : Obj.has (o ++ [(k, v1)])%list k = true).
      { apply has_In. unfold keys. rewrite map_app, in_app_iff.
        right. now left. }
      rewrite H. now apply update_app_new.
Qed.

(** ** Prefixed keys *)

Lemma digits_value_dot : forall a b acc,
  Obj.digits_value (a ++ String "."%char b) acc = None.
Proof.
  induction a as [|x a IH]; intros b acc; simpl.
  - reflexivity.
  - destruct (Obj.is_digit x); [apply IH | reflexivity].
Qed.

Lemma free_of_dot : forall a b, free_of is_dot (a ++ String "."%char b) = false.
Proof.
  induction a as [|x a IH]; intros b; simpl.
  - reflexivity.
  - rewrite IH. apply andb_false_r.
Qed.

Lemma dotted_plain : forall a b, plain_key (a ++ "." ++ b).
Proof.
  intros a b. change ("." ++ b) with (String "."%char b). split.
  - pose proof (digits_value_dot a b 0) as Hd.
    unfold Obj.array_index. destruct (a ++ String "."%char b) as [|c rest];
      [reflexivity |].
    destruct ((c =? "0")%char && negb (rest =? ""))%bool; [reflexivity |].
    now rewrite Hd.
  - intros H. pose proof (free_of_dot a b) as Hf. rewrite H in Hf.
    discriminate Hf.
Qed.

Lemma prefixed_plain : forall path property,
  plain_key (getPrefix path ++ property).
Proof.
  intros path property. destruct (getPrefix_shape path) as [body ->].
  rewrite append_assoc. apply dotted_plain.
Qed.

Lemma getPrefix_not_empty : forall path, getPrefix path <> "".
Proof.
  intros path. destruct (getPrefix_shape path) as [body ->].
  destruct body; discriminate.
Qed.

Lemma truthy_getPrefix : forall path, JS.truthy (getPrefix path) = true.
Proof.
  intros path. unfold JS.truthy. apply negb_true_iff, String.eqb_neq.
  apply getPrefix_not_empty.
Qed.

Lemma append_inj_l : forall a b c : string, a ++ b = a ++ c -> b = c.
Proof.
  induction a as [|x a IH]; intros b c H; simpl in H.
  - exact H.
  - injection H as H. now apply IH.
Qed.

Lemma put_plain : forall o k v,
  plain_key k ->
  Obj.put o k v
  = if Obj.has o k then Obj.update o k v else (o ++ [(k, v)])%list.
Proof.
  intros o k v [Hidx Hproto]. unfold Obj.put, Obj.create.
  destruct (Obj.has o k); [reflexivity |].
  now rewrite Hidx.
Qed.

Lemma put_plain_fresh : forall o k v,
  plain_key k -> ~ In k (keys o) -> Obj.put o k v = (o ++ [(k, v)])%list.
Proof.
  intros o k v Hplain Hfresh. rewrite put_plain by assumption.
  apply has_false_In in Hfresh. now rewrite Hfresh.
Qed.

Lemma keys_put_new : forall o k v,
  In k (keys (Obj.put o k v)).
Proof.
  intros o k v.
  assert (H : Obj.get (Obj.put o k v) k = Some v) by apply get_put_same.
  apply get_In in H. apply (in_map fst) in H. exact H.
Qed.

(** ** The merger *)


Lemma assign_all_keys_old : forall prefix props target k,
  In k (keys target) -> In k (keys (assign_all prefix props target)).
Proof.
  intros prefix. induction props as [|[p v] props IH]; intros target k Hin.
  - exact Hin.
  - simpl. apply IH. now apply keys_put_old.
Qed.

Lemma assign_all_keys : forall prefix props target k,
  In k (keys (assign_all prefix props target)) ->
  In k (keys target)
  \/ exists property, In property (keys props) /\ k = prefix ++ property.
Proof.
  intros prefix. induction props as [|[p v] props IH]; intros target k Hin.
  - now left.
  - simpl in Hin. apply IH in Hin. destruct Hin as [Hin | [q [Hq ->]]].
    + apply keys_put in Hin. destruct Hin as [-> | Hin]; [| now left].
      right. exists p. split; [now left | reflexivity].
    + right. exists q. split; [now right | reflexivity].
Qed.

Lemma assign_all_keys_new : forall prefix props target property,
  In property (keys props) ->
  In (prefix ++ property) (keys (assign_all prefix props target)).
Proof.
  intros prefix. induction props as [|[p v] props IH];
    intros target property Hin; simpl in Hin; [contradiction |].
  simpl. destruct Hin as [-> | Hin].
  - apply assign_all_keys_old. apply keys_put_new.
  - now apply IH.
Qed.

Lemma assign_all_NoDup : forall prefix props target,
  NoDup (keys target) -> NoDup (keys (assign_all prefix props target)).
Proof.
  intros prefix. induction props as [|[p v] props IH]; intros target Hnd.
  - exact Hnd.
  - simpl. apply IH. now apply NoDup_put.
Qed.


(** ** Ordering by code unit *)










Lemma sort_In : forall l k, In k (ArraySort.sort l) <-> In k l.
Proof.
  intros l k. split; apply Permutation_in.
  - apply Permutation_sym, ArraySort.Permuted_sort.
  - apply ArraySort.Permuted_sort.
Qed.

Lemma sort_NoDup : forall l, NoDup l -> NoDup (ArraySort.sort l).
Proof.
  intros l. apply Permutation_NoDup, ArraySort.Permuted_sort.
Qed.



(** ** The loop of [treatMergedData] *)

Lemma merged_of_fold : forall data, merged_of data = fold_left merge_step data [].
Proof. reflexivity. Qed.

Lemma merge_step_assign : forall merged filepath parsed,
  merge_step merged (filepath, parsed)
  = assign_all (getPrefix filepath) (own_properties parsed) merged.
Proof.
  intros merged filepath parsed. unfold merge_step.
  now rewrite truthy_getPrefix.
Qed.

Lemma keys_prefixed : forall filepath parsed,
  keys (prefixed (filepath, parsed))
  = map (append (getPrefix filepath)) (keys (own_properties parsed)).
Proof.
  intros filepath parsed. unfold keys, prefixed. rewrite !map_map. reflexivity.
Qed.

Lemma keys_produced_cons : forall entry data,
  keys (produced (entry :: data))
  = (keys (prefixed entry) ++ keys (produced data))%list.
Proof. intros entry data. unfold keys. simpl. now rewrite map_app. Qed.

Lemma In_keys_produced : forall data k,
  In k (keys (produced data)) <->
  exists filepath parsed property,
    In (filepath, parsed) data
    /\ In property (keys (own_properties parsed))
    /\ k = getPrefix filepath ++ property.
Proof.
  intros data; induction data as [|[filepath parsed] data IH]; intros k.
  - simpl. split; [contradiction | intros (? & ? & ? & H & _); destruct H].
  - rewrite keys_produced_cons, in_app_iff, IH, keys_prefixed, in_map_iff.
    split.
    + intros [[property [<- Hp]] | (f & s & p & Hin & Hp & ->)].
      * exists filepath, parsed, property. repeat split; [now left | exact Hp].
      * exists f, s, p. repeat split; [now right | exact Hp].
    + intros (f & s & p & [Heq | Hin] & Hp & ->).
      * injection Heq as -> ->. left. now exists p.
      * right. now exists f, s, p.
Qed.

Lemma assign_all_In : forall filepath props target k,
  In k (keys (assign_all (getPrefix filepath) props target)) <->
  In k (keys target) \/ In k (map (append (getPrefix filepath)) (keys props)).
Proof.
  intros filepath props target k. rewrite in_map_iff. split.
  - intros H. apply assign_all_keys in H.
    destruct H as [H | [p [Hp ->]]]; [now left | right; now exists p].
  - intros [H | [p [<- Hp]]].
    + now apply assign_all_keys_old.
    + now apply assign_all_keys_new.
Qed.

Lemma fold_merge_In : forall data target k,
  In k (keys (fold_left merge_step data target)) <->
  In k (keys target) \/ In k (keys (produced data)).
Proof.
  intros data; induction data as [|[filepath parsed] data IH]; intros target k.
  - simpl. intuition.
  - cbn [fold_left]. rewrite IH, merge_step_assign, assign_all_In.
    rewrite keys_produced_cons, in_app_iff, keys_prefixed. intuition.
Qed.

Lemma fold_merge_NoDup : forall data target,
  NoDup (keys target) -> NoDup (keys (fold_left merge_step data target)).
Proof.
  intros data; induction data as [|[filepath parsed] data IH]; intros target Hnd.
  - exact Hnd.
  - cbn [fold_left]. apply IH. rewrite merge_step_assign.
    now apply assign_all_NoDup.
Qed.

Lemma fold_merge_plain : forall data k,
  In k (keys (fold_left merge_step data [])) -> plain_key k.
Proof.
  intros data k Hin. apply fold_merge_In in Hin.
  destruct Hin as [[] | Hin].
  apply In_keys_produced in Hin. destruct Hin as (f & s & p & _ & _ & ->).
  apply prefixed_plain.
Qed.




(** ** The ordering step *)

Lemma ordered_of_fold : forall merged,
  ordered_of merged = fold_left (order_step merged) (ArraySort.sort (keys merged)) [].
Proof. reflexivity. Qed.

Lemma In_keys_get : forall o k, In k (keys o) -> exists v, Obj.get o k = Some v.
Proof.
  intros o k Hin. apply has_In in Hin. unfold Obj.has in Hin.
  destruct (Obj.get o k) as [v |]; [now exists v | discriminate].
Qed.

Lemma order_steps : forall merged ks acc,
  NoDup ks ->
  (forall k, In k ks -> plain_key k /\ In k (keys merged) /\ ~ In k (keys acc)) ->
  fold_left (order_step merged) ks acc
  = (acc ++ map (fun k => (k, value_at merged k)) ks)%list.
Proof.
  intros merged. induction ks as [|k ks IH]; intros acc Hnd Hks.
  - simpl. now rewrite app_nil_r.
  - inversion Hnd as [|? ? Hk Hnd']; subst.
    destruct (Hks k (or_introl eq_refl)) as (Hplain & Hin & Hfresh).
    simpl. unfold order_step at 2, value_at at 1.
    destruct (In_keys_get _ _ Hin) as [v ->].
    rewrite put_plain_fresh by assumption.
    rewrite IH; [now rewrite <- app_assoc | exact Hnd' |].
    intros k' Hk'. destruct (Hks k' (or_intror Hk')) as (Hp & Hi & Hf).
    split; [exact Hp | split; [exact Hi |]].
    unfold keys. rewrite map_app, in_app_iff. simpl.
    intros [H | [<- | []]]; [now apply Hf | contradiction].
Qed.

(** The ordered object holds the keys of the merged object in the order
    [sort] gives them, each with the value it had. *)
Lemma order_sorted : forall merged,
  NoDup (keys merged) ->
  (forall k, In k (keys merged) -> plain_key k) ->
  ordered_of merged
  = map (fun k => (k, value_at merged k)) (ArraySort.sort (keys merged)).
Proof.
  intros merged Hnd Hplain. rewrite ordered_of_fold, order_steps.
  - reflexivity.
  - now apply sort_NoDup.
  - intros k Hk. rewrite sort_In in Hk.
    split; [now apply Hplain | split; [exact Hk | intros []]].
Qed.

Lemma keys_order : forall merged,
  NoDup (keys merged) ->
  (forall k, In k (keys merged) -> plain_key k) ->
  keys (ordered_of merged) = ArraySort.sort (keys merged).
Proof.
  intros merged Hnd Hplain. rewrite order_sorted by assumption.
  unfold keys at 1. rewrite map_map. simpl. apply map_id.
Qed.



(** ** Logical paths *)

(** [substr] returns the end of the string. *)
Lemma substr_suffix : forall s start, exists front, s = front ++ JS.substr s start.
Proof.
  intros s start. unfold JS.substr.
  set (from := if (start <? 0)%Z
               then Z.max (Z.of_nat (String.length s) + start) 0
               else Z.min start (Z.of_nat (String.length s))).
  exists (substring 0 (Z.to_nat from) s).
  apply substring_cut.
  subst from. destruct (start <? 0)%Z eqn:Hneg; lia.
Qed.

Lemma logical_path_suffix : forall filePath,
  exists front, filePath = front ++ logical_path filePath.
Proof.
  intros filePath. unfold logical_path.
  repeat match goal with
         | |- context [if ?b then _ else _] => destruct b
         end;
    apply substr_suffix.
Qed.

Lemma append_split : forall front t stem suffix : string,
  front ++ t = stem ++ suffix ->
  (exists m, t = m ++ suffix) \/ (exists m, suffix = m ++ t).
Proof.
  induction front as [|x front IH]; intros t stem suffix H; simpl in H.
  - left. now exists stem.
  - destruct stem as [|y stem]; simpl in H.
    + right. exists (String x front). symmetry. exact H.
    + injection H as _ H. now apply (IH t stem suffix).
Qed.

Lemma json_suffixes : forall m t,
  ".json" = m ++ t -> In t [".json"; "json"; "son"; "on"; "n"; ""].
Proof.
  intros m t H.
  repeat (destruct m as [|? m]; simpl in H;
          [rewrite <- H; simpl; tauto
          | first [discriminate H | injection H as _ H]]).
Qed.

(** The logical path of a file whose name ends in [.json] is neither an
    array index nor [__proto__]: in [data] it is created where the loop will
    visit it last. *)
Lemma logical_path_plain : forall filePath,
  ends_with filePath ".json" -> plain_key (logical_path filePath).
Proof.
  intros filePath [stem Hjson].
  destruct (logical_path_suffix filePath) as [front Hsuffix].
  rewrite Hsuffix in Hjson at 1.
  apply append_split in Hjson. destruct Hjson as [[m ->] | [m Hm]].
  - apply (dotted_plain m "json").
  - apply json_suffixes in Hm. simpl in Hm.
    repeat (destruct Hm as [<- | Hm]; [split; [reflexivity | discriminate] |]).
    contradiction.
Qed.

(** ** The serializer *)

Lemma stringify4_object : forall props,
  JSON.stringify4 (JObject props)
  = JSON.wrap "    " "" "{" "}" (map member_line props).
Proof. reflexivity. Qed.

Lemma merge_NoDup : forall data, NoDup (keys (merged_of data)).
Proof. intros data. rewrite merged_of_fold. apply fold_merge_NoDup. constructor. Qed.

Lemma merge_plain : forall data k, In k (keys (merged_of data)) -> plain_key k.
Proof. intros data k. rewrite merged_of_fold. apply fold_merge_plain. Qed.

Lemma merge_In : forall data k,
  In k (keys (merged_of data)) <-> In k (keys (produced data)).
Proof.
  intros data k. rewrite merged_of_fold, fold_merge_In. simpl. tauto.
Qed.

(** ** Permuted entries *)




(** ** Absent markers *)

Lemma prefix_append : forall pat back, prefix pat (pat ++ back) = true.
Proof.
  induction pat as [|c pat IH]; intros back.
  - now destruct back.
  - simpl. destruct (ascii_dec c c) as [_ | Hne]; [apply IH | now elim Hne].
Qed.

Lemma prefix_starts : forall pat s,
  prefix pat s = true -> exists back, s = pat ++ back.
Proof.
  induction pat as [|c pat IH]; intros s H.
  - now exists s.
  - destruct s as [|c' s]; [discriminate |]. simpl in H.
    destruct (ascii_dec c c') as [<- | _]; [| discriminate].
    destruct (IH s H) as [back ->]. now exists back.
Qed.

Lemma scan_absent : forall pat s i found,
  ~ occurs pat s -> JS.lastIndexOf_scan pat s i found = found.
Proof.
  intros pat. induction s as [|c s IH]; intros i found Habsent.
  - cbn [JS.lastIndexOf_scan]. destruct (prefix pat "") eqn:Hp; [| reflexivity].
    exfalso. apply Habsent. apply prefix_starts in Hp.
    destruct Hp as [back Hback]. now exists "", back.
  - cbn [JS.lastIndexOf_scan].
    destruct (prefix pat (String c s)) eqn:Hp.
    + exfalso. apply Habsent. apply prefix_starts in Hp.
      destruct Hp as [back Hback]. now exists "", back.
    + apply IH. intros (front & back & ->). apply Habsent.
      now exists (String c front), back.
Qed.

Lemma scan_lower_bound : forall pat s i found,
  (found < i)%Z -> (found <= JS.lastIndexOf_scan pat s i found)%Z.
Proof.
  intros pat. induction s as [|c s IH]; intros i found Hlt.
  - cbn [JS.lastIndexOf_scan]. destruct (prefix pat ""); lia.
  - cbn [JS.lastIndexOf_scan]. destruct (prefix pat (String c s)).
    + specialize (IH (i + 1)%Z i). lia.
    + apply IH. lia.
Qed.

Lemma scan_present : forall pat front back i found,
  (found < i)%Z ->
  (i <= JS.lastIndexOf_scan pat (front ++ pat ++ back) i found)%Z.
Proof.
  intros pat. induction front as [|c front IH]; intros back i found Hlt.
  - cbn [append]. destruct (pat ++ back) as [|c s] eqn:Hs.
    + cbn [JS.lastIndexOf_scan].
      pose proof (prefix_append pat back) as Hp. rewrite Hs in Hp.
      rewrite Hp. lia.
    + cbn [JS.lastIndexOf_scan].
      pose proof (prefix_append pat back) as Hp. rewrite Hs in Hp.
      rewrite Hp. specialize (scan_lower_bound pat s (i + 1)%Z i). lia.
  - cbn [append JS.lastIndexOf_scan].
    destruct (prefix pat (String c (front ++ pat ++ back))).
    + specialize (IH back (i + 1)%Z i). lia.
    + specialize (IH back (i + 1)%Z found). lia.
Qed.

(** [lastIndexOf] answers [-1] exactly when the pattern does not occur. *)
Lemma lastIndexOf_absent : forall s pat,
  JS.lastIndexOf s pat = (-1)%Z <-> ~ occurs pat s.
Proof.
  intros s pat. unfold JS.lastIndexOf. split.
  - intros H (front & back & ->).
    pose proof (scan_present pat front back 0 (-1)). lia.
  - apply scan_absent.
Qed.


Lemma keys_output : forall data k,
  In k (keys (ordered_of (merged_of data))) <-> In k (keys (produced data)).
Proof.
  intros data0 k.
  rewrite keys_order by (apply merge_NoDup || apply merge_plain).
  rewrite sort_In. apply merge_In.
Qed.

(** ** Where the members of the output come from *)

Lemma In_update : forall o k v entry,
  In entry (Obj.update o k v) -> entry = (k, v) \/ In entry o.
Proof.
  induction o as [|[k' v'] o IH]; intros k v entry; simpl; [tauto |].
  destruct (String.eqb_spec k' k) as [-> | Hne]; simpl.
  - intros [<- | H]; auto.
  - intros [<- | H]; auto. apply IH in H. tauto.
Qed.

Lemma In_insert_index : forall n k v o entry,
  In entry (Obj.insert_index n k v o) -> entry = (k, v) \/ In entry o.
Proof.
  intros n k v. induction o as [|[k' v'] o IH]; intros entry; simpl.
  - intros [<- | []]. now left.
  - destruct (Obj.array_index k') as [n' |]; [destruct (n' <? n)%N |]; simpl.
    + intros [<- | H]; auto. apply IH in H. tauto.
    + intros [<- | H]; auto.
    + intros [<- | H]; auto.
Qed.

Lemma In_put : forall o k v entry,
  In entry (Obj.put o k v) -> entry = (k, v) \/ In entry o.
Proof.
  intros o k v entry. unfold Obj.put, Obj.create.
  destruct (Obj.has o k); [apply In_update |].
  destruct (Obj.array_index k); [apply In_insert_index |].
  rewrite in_app_iff. simpl. intros [H | [<- | []]]; auto.
Qed.

Lemma In_assign_all : forall prefix props target entry,
  In entry (assign_all prefix props target) ->
  In entry target
  \/ exists property value,
       In (property, value) props /\ entry = (prefix ++ property, value).
Proof.
  intros prefix. induction props as [|[p v] props IH]; intros target entry H.
  - now left.
  - cbn [assign_all fold_left] in H. apply IH in H.
    destruct H as [H | (q & w & Hq & ->)].
    + apply In_put in H. destruct H as [-> | H]; [| now left].
      right. exists p, v. split; [now left | reflexivity].
    + right. exists q, w. split; [now right | reflexivity].
Qed.

Lemma In_fold_merge : forall data0 target entry,
  In entry (fold_left merge_step data0 target) ->
  In entry target
  \/ exists filepath parsed property value,
       In (filepath, parsed) data0
       /\ In (property, value) (own_properties parsed)
       /\ entry = (getPrefix filepath ++ property, value).
Proof.
  induction data0 as [|[filepath parsed] data0 IH]; intros target entry H.
  - now left.
  - cbn [fold_left] in H. apply IH in H.
    destruct H as [H | (f & s & q & w & Hin & Hq & ->)].
    + rewrite merge_step_assign in H. apply In_assign_all in H.
      destruct H as [H | (q & w & Hq & ->)]; [now left |].
      right. exists filepath, parsed, q, w. repeat split; [now left | exact Hq].
    + right. exists f, s, q, w. repeat split; [now right | exact Hq].
Qed.

Lemma In_order : forall merged k v,
  NoDup (keys merged) ->
  (forall k, In k (keys merged) -> plain_key k) ->
  In (k, v) (ordered_of merged) -> In (k, v) merged.
Proof.
  intros merged k v Hnd Hplain H.
  rewrite order_sorted in H by assumption.
  apply in_map_iff in H. destruct H as (k' & Heq & Hk').
  injection Heq as -> <-. rewrite sort_In in Hk'.
  unfold value_at. destruct (In_keys_get _ _ Hk') as [w Hw].
  rewrite Hw. now apply get_In.
Qed.

(** ** The order of the keys of [data] *)

Lemma existsb_eqb_In : forall k seen,
  existsb (String.eqb k) seen = true <-> In k seen.
Proof.
  intros k seen. rewrite existsb_exists. split.
  - intros [x [Hin Heq]]. apply String.eqb_eq in Heq. now subst.
  - intros Hin. exists k. split; [exact Hin | apply String.eqb_refl].
Qed.

Lemma keys_assign_plain : forall o entry,
  plain_key (fst entry) ->
  keys (put_entry o entry)
  = if existsb (String.eqb (fst entry)) (keys o) then keys o
    else (keys o ++ [fst entry])%list.
Proof.
  intros o [k v] Hplain. unfold put_entry. cbn [fst snd] in *.
  rewrite put_plain by exact Hplain.
  destruct (Obj.has o k) eqn:Hhas.
  - rewrite keys_update.
    apply has_In, existsb_eqb_In in Hhas. now rewrite Hhas.
  - destruct (existsb (String.eqb k) (keys o)) eqn:Hex.
    + apply existsb_eqb_In, has_In in Hex. congruence.
    + unfold keys. now rewrite map_app.
Qed.

Lemma keys_assigned_plain : forall entries o,
  Forall (fun entry => plain_key (fst entry)) entries ->
  keys (fold_left put_entry entries o)
  = fold_left
      (fun seen k =>
         if existsb (String.eqb k) seen then seen else (seen ++ [k])%list)
      (keys entries) (keys o).
Proof.
  induction entries as [|entry entries IH]; intros o Hplain.
  - reflexivity.
  - inversion Hplain as [|? ? Hentry Hrest]; subst.
    cbn [fold_left keys map]. rewrite IH by exact Hrest.
    now rewrite keys_assign_plain.
Qed.

Lemma assignments_plain : forall JSON_parse files,
  Forall (fun file => ends_with (path file) ".json") files ->
  Forall (fun entry => plain_key (fst entry)) (assignments JSON_parse files).
Proof.
  intros JSON_parse files Hjson. unfold assignments.
  apply Forall_flat_map. rewrite Forall_forall in *.
  intros file Hfile. unfold assignment.
  destruct (file_contents file) as [| | text]; try constructor.
  destruct (JSON_parse text); constructor; [| constructor].
  cbn [fst]. apply logical_path_plain. now apply Hjson.
Qed.

(** ** Assignment to an object *)

(** An assignment acts on the own properties as [Obj.put] does, unless it
    is taken by the accessor [__proto__], which leaves them as they are. *)
Lemma own_set_cases : forall (o : object) k v,
  own (Obj.set o k v) = Obj.put o k v
  \/ (k = "__proto__" /\ ~ In k (keys o) /\ own (Obj.set o k v) = own o).
Proof.
  intros o k v. unfold Obj.set.
  destruct (String.eqb_spec k "__proto__") as [-> | Hne]; [| now left].
  destruct (Obj.has o "__proto__") eqn:Hhas; [now left |].
  destruct (Obj.reaches_proto_accessor (proto o)); [| now left].
  right. split; [reflexivity | split; [now apply has_false_In |]].
  cbn [andb negb]. now destruct v.
Qed.

Lemma set_own : forall (o : object) k v,
  k <> "__proto__" \/ In k (keys o) ->
  Obj.set o k v = {| own := Obj.put o k v; proto := proto o |}.
Proof.
  intros o k v Hk. unfold Obj.set.
  destruct Hk as [Hne | Hin].
  - apply String.eqb_neq in Hne. now rewrite Hne.
  - apply has_In in Hin. rewrite Hin. now rewrite andb_false_r.
Qed.

Lemma In_own_set : forall (o : object) k v entry,
  In entry (Obj.set o k v) -> entry = (k, v) \/ In entry o.
Proof.
  intros o k v entry H.
  destruct (own_set_cases o k v) as [Heq | (_ & _ & Heq)]; rewrite Heq in H.
  - now apply In_put.
  - now right.
Qed.

Lemma NoDup_own_set : forall (o : object) k v,
  NoDup (keys o) -> NoDup (keys (Obj.set o k v)).
Proof.
  intros o k v Hnd.
  destruct (own_set_cases o k v) as [Heq | (_ & _ & Heq)]; rewrite Heq.
  - now apply NoDup_put.
  - exact Hnd.
Qed.

Lemma keys_own_set_old : forall (o : object) k v k',
  In k' (keys o) -> In k' (keys (Obj.set o k v)).
Proof.
  intros o k v k' Hin.
  destruct (own_set_cases o k v) as [Heq | (_ & _ & Heq)]; rewrite Heq.
  - now apply keys_put_old.
  - exact Hin.
Qed.

(** An assignment leaves every other own property as it was. *)
Lemma get_own_set_other : forall (o : object) k v k',
  k' <> k -> Obj.get (Obj.set o k v) k' = Obj.get o k'.
Proof.
  intros o k v k' Hne.
  destruct (own_set_cases o k v) as [Heq | (_ & _ & Heq)]; rewrite Heq.
  - now apply get_put_other.
  - reflexivity.
Qed.

(** Reading back what was assigned.  The key [__proto__] is the one key an
    assignment may leave without an own property. *)
Lemma get_own_set_same : forall (o : object) k v,
  k <> "__proto__" \/ In k (keys o) -> Obj.get (Obj.set o k v) k = Some v.
Proof.
  intros o k v Hk. rewrite set_own by exact Hk. apply get_put_same.
Qed.

(** After an assignment to [k], an own property [k] holds the value
    assigned, if there is one at all. *)
Lemma In_own_set_key : forall (o : object) k v w,
  NoDup (keys o) -> In (k, w) (Obj.set o k v) -> w = v.
Proof.
  intros o k v w Hnd Hin.
  destruct (own_set_cases o k v) as [Heq | (_ & Hout & Heq)].
  - assert (Hnd' : NoDup (keys (Obj.set o k v))) by (now apply NoDup_own_set).
    apply In_get in Hin; [| exact Hnd'].
    rewrite Heq, get_put_same in Hin. congruence.
  - rewrite Heq in Hin. exfalso. apply Hout.
    apply (in_map fst) in Hin. exact Hin.
Qed.

(** ** The guard of the loops *)

Lemma fold_addProperties_Raise : forall (source : object) prefix props e,
  fold_left
    (fun reached '(property, value) =>
       target <- reached ;;
       owned <- hasOwnProperty source property ;;
       if owned then Ok (Obj.set target (prefix ++ property) value)
       else Ok target)
    props (Raise e)
  = Raise e.
Proof.
  intros source prefix. induction props as [|[p v] props IH]; intros e.
  - reflexivity.
  - cbn [fold_left bind]. apply IH.
Qed.

Lemma fold_addProperties_Ok : forall (source : object) prefix props target,
  builtin_hasOwnProperty source = true ->
  (forall entry, In entry props -> Obj.has source (fst entry) = true) ->
  fold_left
    (fun reached '(property, value) =>
       target <- reached ;;
       owned <- hasOwnProperty source property ;;
       if owned then Ok (Obj.set target (prefix ++ property) value)
       else Ok target)
    props (Ok target)
  = Ok (assign_each prefix props target).
Proof.
  intros source prefix. induction props as [|[p v] props IH];
    intros target Hbuiltin Hown.
  - reflexivity.
  - cbn [fold_left bind]. unfold hasOwnProperty at 2.
    rewrite Hbuiltin. cbn [bind].
    pose proof (Hown (p, v) (or_introl eq_refl)) as Hp. cbn [fst] in Hp.
    rewrite Hp. apply IH; [exact Hbuiltin |].
    intros entry Hin. apply Hown. now right.
Qed.

Lemma builtin_as_object : forall source,
  builtin_hasOwnProperty (as_object source)
  = negb (shadows_hasOwnProperty source).
Proof.
  intros source. unfold builtin_hasOwnProperty, shadows_hasOwnProperty.
  cbn [as_object own proto]. now destruct (Obj.has (own_properties source) _).
Qed.

Lemma for_in_as_object : forall source,
  for_in (as_object source) = own_properties source.
Proof.
  intros source. unfold for_in, inherited. cbn [as_object own proto].
  apply app_nil_r.
Qed.

Lemma In_has : forall (o : obj) entry, In entry o -> Obj.has o (fst entry) = true.
Proof.
  intros o entry Hin. apply has_In. now apply in_map.
Qed.

(** [addProperties] raises on a source with an own property named
    [hasOwnProperty], at the first property it visits. *)
Lemma addProperties_shadowed : forall target source prefix,
  shadows_hasOwnProperty source = true ->
  addProperties target source prefix = Raise TypeError.
Proof.
  intros target source prefix Hshadow. unfold addProperties.
  rewrite for_in_as_object.
  assert (Hbuiltin : builtin_hasOwnProperty (as_object source) = false)
    by (now rewrite builtin_as_object, Hshadow).
  destruct (own_properties source) as [|[p v] props] eqn:Hprops.
  - unfold shadows_hasOwnProperty in Hshadow. rewrite Hprops in Hshadow.
    discriminate Hshadow.
  - cbn [fold_left bind]. unfold hasOwnProperty at 2.
    rewrite Hbuiltin. cbn [bind]. apply fold_addProperties_Raise.
Qed.

(** On any other source it returns [target] after the assignments. *)
Lemma addProperties_unshadowed : forall target source prefix,
  shadows_hasOwnProperty source = false ->
  addProperties target source prefix
  = Ok (assign_each prefix (own_properties source) target).
Proof.
  intros target source prefix Hshadow. unfold addProperties.
  rewrite for_in_as_object. apply fold_addProperties_Ok.
  - now rewrite builtin_as_object, Hshadow.
  - intros entry Hin. cbn [as_object own]. now apply In_has.
Qed.

Lemma assign_each_own : forall prefix props (target : object),
  (forall property, In property (keys props) -> prefix ++ property <> "__proto__") ->
  assign_each prefix props target
  = {| own := assign_all prefix props target; proto := proto target |}.
Proof.
  intros prefix. induction props as [|[p v] props IH]; intros target Hkeys.
  - now destruct target.
  - cbn [assign_each assign_all fold_left].
    fold (assign_each prefix props (Obj.set target (prefix ++ p) v)).
    rewrite IH by (intros q Hq; apply Hkeys; now right).
    rewrite set_own by (left; apply Hkeys; now left).
    reflexivity.
Qed.


Lemma assign_each_keys_old : forall prefix props (target : object) k,
  In k (keys target) -> In k (keys (assign_each prefix props target)).
Proof.
  intros prefix. induction props as [|[p v] props IH]; intros target k Hin.
  - exact Hin.
  - cbn [assign_each fold_left]. apply IH. now apply keys_own_set_old.
Qed.


(** ** The loop of [treatMergedData], with its guard *)

Lemma prefixed_not_proto : forall path property,
  getPrefix path ++ property <> "__proto__".
Proof. intros path property. apply prefixed_plain. Qed.

(** One turn of the loop on an own property of [data]. *)
Lemma addProperties_own : forall (merged : object) filepath parsed,
  addProperties merged parsed (getPrefix filepath)
  = if shadows_hasOwnProperty parsed then Raise TypeError
    else Ok {| own := merge_step merged (filepath, parsed);
               proto := proto merged |}.
Proof.
  intros merged filepath parsed.
  destruct (shadows_hasOwnProperty parsed) eqn:Hshadow.
  - now apply addProperties_shadowed.
  - rewrite addProperties_unshadowed by exact Hshadow.
    rewrite assign_each_own by (intros p _; apply prefixed_not_proto).
    now rewrite merge_step_assign.
Qed.

Lemma fold_merge_Raise : forall (data0 : object) entries e,
  fold_left
    (fun reached '(filepath, parsed) =>
       merged <- reached ;;
       owned <- hasOwnProperty data0 filepath ;;
       if owned then
         let prefix := getPrefix filepath in
         if JS.truthy prefix then addProperties merged parsed prefix
         else Ok merged
       else Ok merged)
    entries (Raise e)
  = Raise e.
Proof.
  intros data0. induction entries as [|[f s] entries IH]; intros e.
  - reflexivity.
  - cbn [fold_left bind]. apply IH.
Qed.

Lemma fold_merge_own : forall (data0 : object) entries (merged : object),
  builtin_hasOwnProperty data0 = true ->
  (forall entry, In entry entries -> Obj.has data0 (fst entry) = true) ->
  fold_left
    (fun reached '(filepath, parsed) =>
       merged <- reached ;;
       owned <- hasOwnProperty data0 filepath ;;
       if owned then
         let prefix := getPrefix filepath in
         if JS.truthy prefix then addProperties merged parsed prefix
         else Ok merged
       else Ok merged)
    entries (Ok merged)
  = if existsb (fun entry : string * json => shadows_hasOwnProperty (snd entry))
               entries
    then Raise TypeError
    else Ok {| own := fold_left merge_step entries merged;
               proto := proto merged |}.
Proof.
  intros data0. induction entries as [|[f s] entries IH];
    intros merged Hbuiltin Hown.
  - now destruct merged.
  - cbn [fold_left bind existsb snd]. unfold hasOwnProperty at 2.
    rewrite Hbuiltin. cbn [bind].
    pose proof (Hown (f, s) (or_introl eq_refl)) as Hf. cbn [fst] in Hf.
    rewrite Hf. cbv zeta. rewrite truthy_getPrefix, addProperties_own.
    destruct (shadows_hasOwnProperty s).
    + cbn [orb]. apply fold_merge_Raise.
    + cbn [orb]. rewrite IH; [reflexivity | exact Hbuiltin |].
      intros entry Hin. apply Hown. now right.
Qed.

Lemma fold_merge_inherited : forall (data0 : object) entries reached,
  builtin_hasOwnProperty data0 = true ->
  (forall entry, In entry entries -> Obj.has data0 (fst entry) = false) ->
  fold_left
    (fun reached '(filepath, parsed) =>
       merged <- reached ;;
       owned <- hasOwnProperty data0 filepath ;;
       if owned then
         let prefix := getPrefix filepath in
         if JS.truthy prefix then addProperties merged parsed prefix
         else Ok merged
       else Ok merged)
    entries reached
  = reached.
Proof.
  intros data0. induction entries as [|[f s] entries IH];
    intros reached Hbuiltin Hout.
  - reflexivity.
  - cbn [fold_left]. rewrite IH.
    + destruct reached as [merged | e]; [| reflexivity].
      cbn [bind]. unfold hasOwnProperty. rewrite Hbuiltin. cbn [bind].
      pose proof (Hout (f, s) (or_introl eq_refl)) as Hf. cbn [fst] in Hf.
      now rewrite Hf.
    + exact Hbuiltin.
    + intros entry Hin. apply Hout. now right.
Qed.

Lemma inherited_not_own : forall (data0 : object) entry,
  In entry (inherited data0) -> Obj.has data0 (fst entry) = false.
Proof.
  intros data0 entry. unfold inherited.
  destruct (proto data0) as [| | value]; try contradiction.
  rewrite filter_In. intros [_ H]. now apply negb_true_iff in H.
Qed.

(** The loop raises when [raises] says so, and otherwise returns the object
    [merged_of] describes. *)
Lemma merge_returns : forall data0 : object,
  merge data0
  = if raises data0 then Raise TypeError
    else Ok {| own := merged_of data0; proto := ObjectPrototype |}.
Proof.
  intros data0. unfold merge, raises.
  destruct (builtin_hasOwnProperty data0) eqn:Hbuiltin; cbn [negb andb orb].
  - unfold for_in. rewrite fold_left_app.
    rewrite fold_merge_own;
      [| exact Hbuiltin | intros entry Hin; now apply In_has].
    rewrite fold_merge_inherited;
      [| exact Hbuiltin | apply inherited_not_own].
    reflexivity.
  - destruct (for_in data0) as [|[f s] entries] eqn:Hvisit.
    + unfold for_in in Hvisit. apply app_eq_nil in Hvisit.
      destruct Hvisit as [Hown _]. rewrite Hown. reflexivity.
    + cbn [fold_left bind orb]. unfold hasOwnProperty at 2.
      rewrite Hbuiltin. cbn [bind]. apply fold_merge_Raise.
Qed.

Lemma order_own : forall merged : object,
  (forall k, In k (keys merged) -> k <> "__proto__") ->
  order merged = {| own := ordered_of merged; proto := ObjectPrototype |}.
Proof.
  intros merged Hkeys. unfold order, ordered_of.
  assert (Hsorted : forall k, In k (ArraySort.sort (keys merged)) ->
                              k <> "__proto__").
  { intros k Hk. apply Hkeys. now apply sort_In. }
  revert Hsorted. generalize (ArraySort.sort (keys merged)) as ks.
  intros ks Hsorted.
  enough (Hfold : forall reached : object,
            fold_left
              (fun mergedOrdered key =>
                 match Obj.get merged key with
                 | Some value => Obj.set mergedOrdered key value
                 | None => mergedOrdered
                 end) ks reached
            = {| own := fold_left
                          (fun mergedOrdered key =>
                             match Obj.get merged key with
                             | Some value => Obj.put mergedOrdered key value
                             | None => mergedOrdered
                             end) ks reached;
                 proto := proto reached |})
    by (apply Hfold).
  induction ks as [|k ks IH]; intros reached.
  - now destruct reached.
  - cbn [fold_left]. destruct (Obj.get merged k) as [value |].
    + rewrite IH by (intros k' Hk'; apply Hsorted; now right).
      rewrite set_own by (left; apply Hsorted; now left).
      reflexivity.
    + apply IH. intros k' Hk'. apply Hsorted. now right.
Qed.

Lemma merge_not_proto : forall (data0 : obj) k,
  In k (keys (merged_of data0)) -> k <> "__proto__".
Proof. intros data0 k Hin. now apply (merge_plain data0 k). Qed.

(** [treatMergedData] raises when [raises] says so, and otherwise returns the
    bytes [bytes_of] describes. *)
Lemma treatMergedData_returns : forall data0 : object,
  treatMergedData data0
  = if raises data0 then Raise TypeError
    else Ok (bytes_of data0).
Proof.
  intros data0. unfold treatMergedData. rewrite merge_returns.
  destruct (raises data0); [reflexivity |].
  cbn [bind]. rewrite order_own by (cbn [own]; apply merge_not_proto).
  reflexivity.
Qed.

(** ** The per-file step *)


Lemma treatFile_rejected : forall JSON_parse file st text,
  file_contents file = IsBuffer text ->
  JSON_parse text = None ->
  treatFile JSON_parse file st
  = {| data := data st;
       console := (console st ++ ["Error parsing JSON:"])%list |}.
Proof.
  intros JSON_parse file st text Hbuf Hparse.
  unfold treatFile. now rewrite Hbuf, Hparse.
Qed.

Lemma treatFiles_cons : forall JSON_parse file rest st,
  treatFiles JSON_parse (file :: rest) st
  = treatFiles JSON_parse rest (treatFile JSON_parse file st).
Proof. reflexivity. Qed.

Lemma treatFiles_app : forall JSON_parse before after st,
  treatFiles JSON_parse (before ++ after) st
  = treatFiles JSON_parse after (treatFiles JSON_parse before st).
Proof. intros. unfold treatFiles. apply fold_left_app. Qed.

(** What [treatFile] stores depends on the data reached so far only. *)
Lemma treatFile_data : forall JSON_parse file st1 st2,
  data st1 = data st2 ->
  data (treatFile JSON_parse file st1) = data (treatFile JSON_parse file st2).
Proof.
  intros JSON_parse file st1 st2 H. unfold treatFile.
  destruct (file_contents file) as [| | text]; try exact H.
  destruct (JSON_parse text); simpl; now rewrite H.
Qed.

Lemma treatFiles_data : forall JSON_parse files st1 st2,
  data st1 = data st2 ->
  data (treatFiles JSON_parse files st1) = data (treatFiles JSON_parse files st2).
Proof.
  intros JSON_parse. induction files as [|file files IH]; intros st1 st2 H.
  - exact H.
  - rewrite !treatFiles_cons. apply IH. now apply treatFile_data.
Qed.

Lemma treatFile_assignment : forall JSON_parse file st,
  data (treatFile JSON_parse file st)
  = match assignment JSON_parse file with
    | Some entry => assign (data st) entry
    | None => data st
    end.
Proof.
  intros JSON_parse file st. unfold treatFile, assignment.
  destruct (file_contents file) as [| | text]; try reflexivity.
  now destruct (JSON_parse text).
Qed.

(** The data of a run is what its assignments leave, one after the other. *)
Lemma data_assignments : forall JSON_parse files st,
  data (treatFiles JSON_parse files st)
  = fold_left assign (assignments JSON_parse files) (data st).
Proof.
  intros JSON_parse. induction files as [|file files IH]; intros st.
  - reflexivity.
  - rewrite treatFiles_cons, IH, treatFile_assignment.
    unfold assignments. cbn [flat_map]. rewrite fold_left_app.
    now destruct (assignment JSON_parse file).
Qed.

Lemma assignments_app : forall JSON_parse before after,
  assignments JSON_parse (before ++ after)
  = (assignments JSON_parse before ++ assignments JSON_parse after)%list.
Proof. intros. unfold assignments. apply flat_map_app. Qed.

Lemma assignments_cons : forall JSON_parse file rest entry,
  assignment JSON_parse file = Some entry ->
  assignments JSON_parse (file :: rest) = entry :: assignments JSON_parse rest.
Proof.
  intros JSON_parse file rest entry H. unfold assignments. cbn [flat_map].
  now rewrite H.
Qed.

Lemma In_assignments : forall JSON_parse files entry,
  In entry (assignments JSON_parse files) <->
  exists file, In file files /\ assignment JSON_parse file = Some entry.
Proof.
  intros JSON_parse files entry. unfold assignments. rewrite in_flat_map.
  split; intros [file [Hfile H]]; exists file; (split; [exact Hfile |]).
  - destruct (assignment JSON_parse file) as [e |]; [| contradiction].
    destruct H as [-> | []]. reflexivity.
  - rewrite H. now left.
Qed.

Lemma assignment_parsed : forall JSON_parse file text parsed,
  file_contents file = IsBuffer text ->
  JSON_parse text = Some parsed ->
  assignment JSON_parse file = Some (logical_path (path file), parsed).
Proof.
  intros JSON_parse file text parsed Hbuf Hparse. unfold assignment.
  now rewrite Hbuf, Hparse.
Qed.

(** What a sequence of assignments leaves under a key other than
    [__proto__]: the value assigned last. *)
Lemma get_assigned : forall entries (o : object) k,
  k <> "__proto__" ->
  Obj.get (fold_left assign entries o) k
  = fold_left
      (fun found entry =>
         if (fst entry =? k)%string then Some (snd entry) else found)
      entries (Obj.get o k).
Proof.
  induction entries as [|[k' v] entries IH]; intros o k Hk.
  - reflexivity.
  - cbn [fold_left]. rewrite IH by exact Hk. f_equal.
    unfold assign. cbn [fst snd].
    destruct (String.eqb_spec k' k) as [-> | Hne].
    + apply get_own_set_same. now left.
    + apply get_own_set_other. congruence.
Qed.

Lemma last_assigned_app : forall before k v after,
  last_assigned (before ++ (k, v) :: after) k = last_assigned ((k, v) :: after) k.
Proof.
  intros before k v after. unfold last_assigned.
  rewrite fold_left_app. cbn [fold_left fst snd].
  now rewrite String.eqb_refl.
Qed.

Lemma last_assigned_absent : forall (entries : obj) k (found : option json),
  (forall entry, In entry entries -> fst entry <> k) ->
  fold_left
    (fun found entry =>
       if (fst entry =? k)%string then Some (snd entry) else found)
    entries found
  = found.
Proof.
  induction entries as [|entry entries IH]; intros k found Hout.
  - reflexivity.
  - cbn [fold_left]. rewrite IH by (intros e He; apply Hout; now right).
    destruct (String.eqb_spec (fst entry) k) as [Heq | _]; [| reflexivity].
    exfalso. apply (Hout entry); [now left | exact Heq].
Qed.

(** Assignments to keys other than [__proto__] act on the own properties
    and leave the prototype alone. *)
Lemma assigned_own : forall entries (o : object),
  Forall (fun entry => fst entry <> "__proto__") entries ->
  fold_left assign entries o
  = {| own := fold_left put_entry entries o; proto := proto o |}.
Proof.
  induction entries as [|[k v] entries IH]; intros o Hkeys.
  - now destruct o.
  - inversion Hkeys as [|? ? Hk Hrest]; subst. cbn [fst] in Hk.
    cbn [fold_left]. rewrite IH by exact Hrest.
    unfold assign, put_entry. cbn [fst snd].
    rewrite set_own by (now left). reflexivity.
Qed.

Lemma assignments_not_proto : forall JSON_parse files,
  Forall (fun file => ends_with (path file) ".json") files ->
  Forall (fun entry => fst entry <> "__proto__") (assignments JSON_parse files).
Proof.
  intros JSON_parse files Hjson.
  eapply Forall_impl; [| apply assignments_plain; exact Hjson].
  intros entry Hplain. apply Hplain.
Qed.

(** In a run over files whose paths end in [.json] the prototype of [data]
    stays [Object.prototype]. *)
Lemma data_json_files : forall JSON_parse files,
  Forall (fun file => ends_with (path file) ".json") files ->
  data (treatFiles JSON_parse files initial)
  = {| own := fold_left put_entry (assignments JSON_parse files) [];
       proto := ObjectPrototype |}.
Proof.
  intros JSON_parse files Hjson.
  rewrite data_assignments, assigned_own by (now apply assignments_not_proto).
  reflexivity.
Qed.

Lemma In_fold_assign : forall entries (o : object) entry,
  In entry (fold_left assign entries o) -> In entry o \/ In entry entries.
Proof.
  induction entries as [|e entries IH]; intros o entry H.
  - now left.
  - cbn [fold_left] in H. apply IH in H. destruct H as [H | H].
    + unfold assign in H. apply In_own_set in H.
      destruct H as [-> | H]; [right; left; now destruct e | now left].
    + right. now right.
Qed.

Lemma NoDup_fold_assign : forall entries (o : object),
  NoDup (keys o) -> NoDup (keys (fold_left assign entries o)).
Proof.
  induction entries as [|e entries IH]; intros o Hnd.
  - exact Hnd.
  - cbn [fold_left]. apply IH. now apply NoDup_own_set.
Qed.

(** Once a key has been assigned, an own property of that name holds a value
    assigned then or later. *)
Lemma In_fold_assign_after : forall before k v after (o : object) w,
  NoDup (keys o) ->
  In (k, w) (fold_left assign (before ++ (k, v) :: after) o) ->
  In (k, w) ((k, v) :: after).
Proof.
  intros before k v after o w Hnd H.
  rewrite fold_left_app in H. cbn [fold_left] in H.
  apply In_fold_assign in H. destruct H as [H | H]; [| now right].
  unfold assign in H. cbn [fst snd] in H.
  apply In_own_set_key in H; [| now apply NoDup_fold_assign].
  subst w. now left.
Qed.


(** ** What [treatMergedData] returns *)

Lemma merge_Ok : forall (data0 merged : object),
  merge data0 = Ok merged ->
  raises data0 = false
  /\ merged = {| own := merged_of data0; proto := ObjectPrototype |}.
Proof.
  intros data0 merged H. rewrite merge_returns in H.
  destruct (raises data0); [discriminate H |].
  injection H as <-. now split.
Qed.

Lemma order_merged : forall (data0 merged : object),
  merge data0 = Ok merged ->
  own (order merged) = ordered_of (merged_of data0).
Proof.
  intros data0 merged H. apply merge_Ok in H. destruct H as [_ ->].
  rewrite order_own by (cbn [own]; apply merge_not_proto). reflexivity.
Qed.



Lemma last_assigned_In : forall (entries : obj) k v,
  last_assigned entries k = Some v -> In (k, v) entries.
Proof.
  intros entries k v. unfold last_assigned.
  assert (H : forall found,
             fold_left
               (fun found entry =>
                  if (fst entry =? k)%string then Some (snd entry) else found)
               entries found = Some v ->
             found = Some v \/ In (k, v) entries).
  { induction entries as [|[k' v'] entries IH]; intros found Hv.
    - now left.
    - cbn [fold_left fst snd] in Hv. apply IH in Hv.
      destruct Hv as [Hv | Hv]; [| right; now right].
      destruct (String.eqb_spec k' k) as [-> | _]; [| now left].
      injection Hv as ->. right. now left. }
  intros Hv. apply H in Hv. destruct Hv as [Hv | Hv]; [discriminate | exact Hv].
Qed.

(** In a run over files whose paths end in [.json], the entries of [data]
    are the logical paths of the parsed files, each with the value parsed
    last for it. *)
Lemma data_entries_last_assigned : forall JSON_parse files filepath parsed,
  Forall (fun file => ends_with (path file) ".json") files ->
  (In (filepath, parsed) (data (treatFiles JSON_parse files initial))
   <-> last_assigned (assignments JSON_parse files) filepath = Some parsed).
Proof.
  intros JSON_parse files filepath parsed Hjson.
  pose proof (assignments_not_proto JSON_parse files Hjson) as Hkeys.
  rewrite Forall_forall in Hkeys.
  assert (Hnd : NoDup (keys (data (treatFiles JSON_parse files initial)))).
  { rewrite data_assignments. apply NoDup_fold_assign. constructor. }
  assert (Hget : forall k, k <> "__proto__" ->
             Obj.get (data (treatFiles JSON_parse files initial)) k
             = last_assigned (assignments JSON_parse files) k).
  { intros k Hk. rewrite data_assignments. now apply get_assigned. }
  split.
  - intros Hin. rewrite <- Hget.
    + now apply In_get.
    + rewrite data_assignments in Hin. apply In_fold_assign in Hin.
      destruct Hin as [[] | Hin]. apply (Hkeys _ Hin).
  - intros Hlast. apply get_In. rewrite Hget; [exact Hlast |].
    apply last_assigned_In in Hlast. apply (Hkeys _ Hlast).
Qed.





(** ** Insensitivity to the order of accumulation *)







(** ** Collisions between prefixed keys *)





(** ** A file outside every source root *)





(** ** A file that is not JSON *)

(** C6.  A file whose contents [JSON.parse] rejects leaves [data] as it was
    and writes one line with [console.error]; the run goes on, and both the
    data it reaches and the output it emits are those of the other files. *)
Theorem treatFile_rejects_malformed :
  forall JSON_parse file text,
  file_contents file = IsBuffer text ->
  JSON_parse text = None ->
  (forall st,
      data (treatFile JSON_parse file st) = data st
      /\ console (treatFile JSON_parse file st)
         = (console st ++ ["Error parsing JSON:"])%list)
  /\ (forall before after,
      data (treatFiles JSON_parse (before ++ file :: after) initial)
      = data (treatFiles JSON_parse (before ++ after) initial))
  /\ (forall before after,
      snd (through JSON_parse (before ++ file :: after))
      = Some (treatMergedData
                (data (treatFiles JSON_parse (before ++ after) initial)))).
Proof.
  intros JSON_parse file text Hbuf Hparse.
  assert (Hstep : forall st, data (treatFile JSON_parse file st) = data st).
  { intros st. now rewrite (treatFile_rejected _ _ _ _ Hbuf Hparse). }
  assert (Hrun : forall before after,
             data (treatFiles JSON_parse (before ++ file :: after) initial)
             = data (treatFiles JSON_parse (before ++ after) initial)).
  { intros before after. rewrite !treatFiles_app, treatFiles_cons.
    apply treatFiles_data, Hstep. }
  split; [| split].
  - intros st. split; [apply Hstep |].
    now rewrite (treatFile_rejected _ _ _ _ Hbuf Hparse).
  - exact Hrun.
  - intros before after. unfold through. cbn [snd].
    rewrite <- (Hrun before after). now destruct before.
Qed.

Lemma treatFile_rejects_malformed_example :
  data (treatFiles (parse_known [title_A; title_B])
                   [file_a; broken_file; file_b] initial)
  = data (treatFiles (parse_known [title_A; title_B]) [file_a; file_b] initial).
Proof.
  destruct (treatFile_rejects_malformed (parse_known [title_A; title_B])
              broken_file "{" eq_refl eq_refl) as (_ & Hrun & _).
  exact (Hrun [file_a] [file_b]).
Defined.

(** ** Two files with one logical path *)

(** C10.  When two parsed files of a run have the same logical path, the
    assignment of the later one replaces what the earlier one stored: what
    [data] holds under the logical path at the end is decided by the later
    file and the files after it, and it is the mapping of the later file if
    no file after it has that logical path.  Of a joined file the run emits,
    every key of that mapping is a key under the prefix of the logical path,
    and a key that only the earlier file produces is absent. *)
Theorem same_logical_path_replaces :
  forall JSON_parse before f1 middle f2 after text1 text2 parsed1 parsed2,
  file_contents f1 = IsBuffer text1 -> JSON_parse text1 = Some parsed1 ->
  file_contents f2 = IsBuffer text2 -> JSON_parse text2 = Some parsed2 ->
  logical_path (path f1) = logical_path (path f2) ->
  let filepath := logical_path (path f2) in
  let files := (before ++ f1 :: middle ++ f2 :: after)%list in
  let reached := data (treatFiles JSON_parse files initial) in
  let last_with_path :=
    forall file entry,
      In file after -> assignment JSON_parse file = Some entry ->
      fst entry <> filepath in
  (filepath <> "__proto__" ->
      Obj.get reached filepath
      = last_assigned (assignments JSON_parse (f2 :: after)) filepath
      /\ (last_with_path -> Obj.get reached filepath = Some parsed2))
  /\ forall merged : object,
      merge reached = Ok merged ->
      (filepath <> "__proto__" -> last_with_path ->
       forall property,
         In property (keys (own_properties parsed2)) ->
         In (getPrefix filepath ++ property) (keys (order merged)))
      /\ (forall property,
           In property (keys (own_properties parsed1)) ->
           (forall file entry,
               In file (before ++ middle ++ f2 :: after) ->
               assignment JSON_parse file = Some entry ->
               ~ In (getPrefix filepath ++ property) (keys (prefixed entry))) ->
           ~ In (getPrefix filepath ++ property) (keys (order merged))).
Proof.
  intros JSON_parse before f1 middle f2 after text1 text2 parsed1 parsed2
         Hb1 Hp1 Hb2 Hp2 Hsame filepath files reached last_with_path.
  pose proof (assignment_parsed _ _ _ _ Hb1 Hp1) as He1.
  pose proof (assignment_parsed _ _ _ _ Hb2 Hp2) as He2.
  rewrite Hsame in He1. fold filepath in He1, He2.
  assert (Hentries : assignments JSON_parse files
                     = ((assignments JSON_parse before
                          ++ (filepath, parsed1) :: assignments JSON_parse middle)
                        ++ (filepath, parsed2) :: assignments JSON_parse after)%list).
  { unfold files. rewrite assignments_app, (assignments_cons _ _ _ _ He1).
    rewrite assignments_app, (assignments_cons _ _ _ _ He2).
    now rewrite <- app_assoc. }
  assert (Hstored : filepath <> "__proto__" ->
            Obj.get reached filepath
            = last_assigned (assignments JSON_parse (f2 :: after)) filepath).
  { intros Hne. unfold reached. rewrite data_assignments.
    rewrite get_assigned by exact Hne.
    change (Obj.get (data initial) filepath) with (@None json).
    fold (last_assigned (assignments JSON_parse files) filepath).
    rewrite Hentries, last_assigned_app.
    now rewrite (assignments_cons _ _ _ _ He2). }
  assert (Hlater : filepath <> "__proto__" -> last_with_path ->
            Obj.get reached filepath = Some parsed2).
  { intros Hne Hlast. rewrite (Hstored Hne).
    rewrite (assignments_cons _ _ _ _ He2). unfold last_assigned.
    cbn [fold_left fst snd]. rewrite String.eqb_refl.
    apply last_assigned_absent. intros entry Hin.
    apply In_assignments in Hin. destruct Hin as (file & Hfile & Hentry).
    now apply (Hlast file entry). }
  split.
  - intros Hne. split; [now apply Hstored | now apply Hlater].
  - intros merged Hmerge.
    assert (Hkeys : forall k,
               In k (keys (order merged)) <-> In k (keys (produced reached))).
    { intros k. rewrite (order_merged reached merged Hmerge).
      apply keys_output. }
    split.
    + intros Hne Hlast property Hproperty. apply Hkeys, In_keys_produced.
      exists filepath, parsed2, property. repeat split; [| exact Hproperty].
      apply get_In. now apply Hlater.
    + intros property Hproperty Honly Hin.
      apply Hkeys, In_keys_produced in Hin.
      destruct Hin as (f & s & p & Hentry & Hp & Heq).
      assert (Hassigned : In (f, s) (assignments JSON_parse files)).
      { unfold reached in Hentry. rewrite data_assignments in Hentry.
        apply In_fold_assign in Hentry. destruct Hentry as [[] | H]. exact H. }
      assert (Hother : exists file,
                 In file (before ++ middle ++ f2 :: after)
                 /\ assignment JSON_parse file = Some (f, s)).
      { rewrite Hentries in Hassigned. rewrite !in_app_iff in Hassigned.
        cbn [In] in Hassigned.
        destruct Hassigned as [[H | [H | H]] | [H | H]].
        - apply In_assignments in H. destruct H as (file & Hfile & H).
          exists file. split; [| exact H]. rewrite in_app_iff. now left.
        - injection H as Hf Hs. subst f s.
          assert (Hagain : In (filepath, parsed1)
                              ((filepath, parsed2) :: assignments JSON_parse after)).
          { unfold reached in Hentry.
            rewrite data_assignments, Hentries in Hentry.
            apply (In_fold_assign_after _ _ _ _ (data initial) _
                     (NoDup_nil _) Hentry). }
          destruct Hagain as [H | H].
          + exists f2. split; [| now rewrite He2, H].
            rewrite !in_app_iff. right. right. now left.
          + apply In_assignments in H. destruct H as (file & Hfile & H).
            exists file. split; [| exact H].
            rewrite !in_app_iff. right. right. now right.
        - apply In_assignments in H. destruct H as (file & Hfile & H).
          exists file. split; [| exact H]. rewrite !in_app_iff. right. now left.
        - exists f2. split; [| now rewrite He2, H].
          rewrite !in_app_iff. right. right. now left.
        - apply In_assignments in H. destruct H as (file & Hfile & H).
          exists file. split; [| exact H].
          rewrite !in_app_iff. right. right. now right. }
      destruct Hother as (file & Hfile & Hentry').
      apply (Honly file (f, s) Hfile Hentry').
      rewrite keys_prefixed, Heq. now apply in_map.
Qed.

Lemma same_logical_path_replaces_example :
  Obj.get (data (treatFiles (parse_known [title_and_hint; title_B; title_again])
                            [first_root; file_b; second_root] initial))
          "core/lang.json"
  = Some title_again
  /\ forall merged : object,
      merge (data (treatFiles (parse_known [title_and_hint; title_B; title_again])
                              [first_root; file_b; second_root] initial))
      = Ok merged ->
      In ("core." ++ "title") (keys (order merged))
      /\ ~ In ("core." ++ "hint") (keys (order merged)).
Proof.
  destruct (same_logical_path_replaces
              (parse_known [title_and_hint; title_B; title_again])
              [] first_root [file_b] second_root []
              (JSON.stringify4 title_and_hint) (JSON.stringify4 title_again)
              title_and_hint title_again
              eq_refl eq_refl eq_refl eq_refl eq_refl)
    as [Hstored Houtput].
  assert (Hlast : forall file entry,
             In file [] ->
             assignment (parse_known [title_and_hint; title_B; title_again]) file
             = Some entry ->
             fst entry <> logical_path (path second_root))
    by (intros file entry []).
  split.
  - apply Hstored; [discriminate | exact Hlast].
  - intros merged Hmerge. destruct (Houtput merged Hmerge) as [Hlater Honly].
    split.
    + apply (Hlater ltac:(discriminate) Hlast "title"). simpl. tauto.
    + apply (Honly "hint"); [simpl; tauto |].
      intros file entry [<- | [<- | []]] Hentry;
        injection Hentry as <-; simpl; intuition discriminate.
Defined.

(** * Further properties of the task *)

(** ** The logical path of a file under a source root *)

Lemma scan_last : forall c pat front back i found,
  ~ occurs (String c pat) (pat ++ back) ->
  JS.lastIndexOf_scan (String c pat) (front ++ String c pat ++ back) i found
  = (i + Z.of_nat (String.length front))%Z.
Proof.
  intros c pat. induction front as [|x front IH]; intros back i found Hlast.
  - change ("" ++ String c pat ++ back) with (String c (pat ++ back)).
    cbn [JS.lastIndexOf_scan String.length].
    pose proof (prefix_append (String c pat) back) as Hp.
    change (String c pat ++ back) with (String c (pat ++ back)) in Hp.
    rewrite Hp, scan_absent by exact Hlast. simpl. lia.
  - change (String x front ++ String c pat ++ back)
      with (String x (front ++ String c pat ++ back)).
    cbn [JS.lastIndexOf_scan String.length].
    replace (i + Z.of_nat (S (String.length front)))%Z
      with ((i + 1) + Z.of_nat (String.length front))%Z by lia.
    now apply IH.
Qed.

(** [lastIndexOf] finds the occurrence after which the pattern occurs no
    more. *)
Lemma lastIndexOf_last : forall c pat front back,
  ~ occurs (String c pat) (pat ++ back) ->
  JS.lastIndexOf (front ++ String c pat ++ back) (String c pat)
  = Z.of_nat (String.length front).
Proof.
  intros c pat front back Hlast. unfold JS.lastIndexOf.
  now rewrite scan_last.
Qed.

Lemma substr_after : forall a b n,
  n = Z.of_nat (String.length a) -> JS.substr (a ++ b) n = b.
Proof.
  intros a b n ->. unfold JS.substr. rewrite length_append.
  replace (Z.of_nat (String.length a) <? 0)%Z with false
    by (symmetry; apply Z.ltb_ge; lia).
  replace (Z.to_nat (Z.min (Z.of_nat (String.length a))
                           (Z.of_nat (String.length a + String.length b))))
    with (String.length a) by lia.
  replace (String.length a + String.length b - String.length a)
    with (String.length b) by lia.
  now rewrite substring_skip_append, substring_0_length.
Qed.

Lemma substr_after_marker : forall front marker rest n,
  n = (Z.of_nat (String.length front) + Z.of_nat (String.length marker))%Z ->
  JS.substr (front ++ marker ++ rest) n = rest.
Proof.
  intros front marker rest n ->. rewrite <- append_assoc.
  apply substr_after. rewrite length_append. lia.
Qed.

Lemma of_nat_not_negative : forall n, (Z.of_nat n <? 0)%Z = false.
Proof. intros n. apply Z.ltb_ge. lia. Qed.

(** The four searches of [treatFile], in the order they decide. *)
Lemma logical_path_cases : forall filePath,
  logical_path filePath
  = if (JS.lastIndexOf filePath "/src/app/" <? 0)%Z then
      if (JS.lastIndexOf filePath "\src\app\" <? 0)%Z then
        if (JS.lastIndexOf filePath "/src/" <? 0)%Z then
          JS.substr filePath (JS.lastIndexOf filePath "\src\" + 5)
        else JS.substr filePath (JS.lastIndexOf filePath "/src/" + 5)
      else JS.substr filePath (JS.lastIndexOf filePath "\src\app\" + 9)
    else JS.substr filePath (JS.lastIndexOf filePath "/src/app/" + 9).
Proof.
  intros filePath. unfold logical_path.
  destruct (JS.lastIndexOf filePath "/src/app/" <? 0)%Z eqn:H1.
  - destruct (JS.lastIndexOf filePath "\src\app\" <? 0)%Z eqn:H2.
    + now destruct (JS.lastIndexOf filePath "/src/" <? 0)%Z.
    + reflexivity.
  - now rewrite H1.
Qed.

Ltac absent_marker H :=
  let E := fresh "E" in
  pose proof (proj2 (lastIndexOf_absent _ _) H) as E; rewrite E; clear E;
  change (-1 <? 0)%Z with true; cbv iota.

(** X1.  When [/src/app/] occurs in the path of a file, the logical path is
    the text after its last occurrence, whatever else the path holds (a
    later [/src/] included).  When it does not occur and [\src\app\] does,
    the logical path is the text after the last occurrence of that. *)
Theorem logical_path_deep_marker :
  (forall front rest,
      ~ occurs "/src/app/" ("src/app/" ++ rest) ->
      logical_path (front ++ "/src/app/" ++ rest) = rest)
  /\ (forall front rest,
      ~ occurs "/src/app/" (front ++ "\src\app\" ++ rest) ->
      ~ occurs "\src\app\" ("src\app\" ++ rest) ->
      logical_path (front ++ "\src\app\" ++ rest) = rest).
Proof.
  split.
  - intros front rest Hlast. rewrite logical_path_cases.
    rewrite (lastIndexOf_last "/" "src/app/" front rest Hlast).
    rewrite of_nat_not_negative.
    now apply substr_after_marker.
  - intros front rest Hforward Hlast. rewrite logical_path_cases.
    absent_marker Hforward.
    rewrite (lastIndexOf_last "\" "src\app\" front rest Hlast).
    rewrite of_nat_not_negative.
    now apply substr_after_marker.
Qed.

Lemma logical_path_deep_marker_examples :
  logical_path ("/w" ++ "/src/app/" ++ "x/src/y.json") = "x/src/y.json"
  /\ logical_path ("C:\w" ++ "\src\app\" ++ "core\lang.json") = "core\lang.json".
Proof.
  destruct logical_path_deep_marker as [Hforward Hbackward]. split.
  - apply (Hforward "/w" "x/src/y.json").
    apply lastIndexOf_absent. reflexivity.
  - apply (Hbackward "C:\w" "core\lang.json");
      apply lastIndexOf_absent; reflexivity.
Defined.

(** X2.  When neither form of the deep marker occurs in the path of a file
    and [/src/] does, the logical path is the text after the last occurrence
    of [/src/]; when [/src/] does not occur either and [\src\] does, it is
    the text after the last occurrence of that. *)
Theorem logical_path_shallow_marker :
  (forall front rest,
      ~ occurs "/src/app/" (front ++ "/src/" ++ rest) ->
      ~ occurs "\src\app\" (front ++ "/src/" ++ rest) ->
      ~ occurs "/src/" ("src/" ++ rest) ->
      logical_path (front ++ "/src/" ++ rest) = rest)
  /\ (forall front rest,
      ~ occurs "/src/app/" (front ++ "\src\" ++ rest) ->
      ~ occurs "\src\app\" (front ++ "\src\" ++ rest) ->
      ~ occurs "/src/" (front ++ "\src\" ++ rest) ->
      ~ occurs "\src\" ("src\" ++ rest) ->
      logical_path (front ++ "\src\" ++ rest) = rest).
Proof.
  split.
  - intros front rest Hdeep Hdeep' Hlast. rewrite logical_path_cases.
    absent_marker Hdeep. absent_marker Hdeep'.
    rewrite (lastIndexOf_last "/" "src/" front rest Hlast).
    rewrite of_nat_not_negative.
    now apply substr_after_marker.
  - intros front rest Hdeep Hdeep' Hforward Hlast. rewrite logical_path_cases.
    absent_marker Hdeep. absent_marker Hdeep'. absent_marker Hforward.
    rewrite (lastIndexOf_last "\" "src\" front rest Hlast).
    now apply substr_after_marker.
Qed.

Lemma logical_path_shallow_marker_examples :
  logical_path ("/two" ++ "/src/" ++ "core/lang.json") = "core/lang.json"
  /\ logical_path ("C:\two" ++ "\src\" ++ "core\lang.json") = "core\lang.json".
Proof.
  destruct logical_path_shallow_marker as [Hforward Hbackward]. split.
  - apply (Hforward "/two" "core/lang.json");
      apply lastIndexOf_absent; reflexivity.
  - apply (Hbackward "C:\two" "core\lang.json");
      apply lastIndexOf_absent; reflexivity.
Defined.

(** ** What a run leaves in [data] and on the console *)

(** X3.  After a run over any files, [data] holds under a logical path the
    value parsed from the last file with that logical path, and nothing
    under a logical path no parsed file has; files without contents, streams
    and files [JSON.parse] rejects leave no entry.  The one key this does
    not cover is [__proto__]. *)
Theorem data_holds_last_parsed : forall JSON_parse files k,
  k <> "__proto__" ->
  Obj.get (data (treatFiles JSON_parse files initial)) k
  = last_assigned (assignments JSON_parse files) k.
Proof.
  intros JSON_parse files k Hk.
  rewrite data_assignments. now apply get_assigned.
Qed.

Lemma data_holds_last_parsed_example :
  Obj.get (data (treatFiles (parse_known [title_and_hint; title_again])
                            [first_root; null_file; broken_file; second_root]
                            initial))
          "core/lang.json"
  = last_assigned
      (assignments (parse_known [title_and_hint; title_again])
                   [first_root; null_file; broken_file; second_root])
      "core/lang.json".
Proof.
  apply (data_holds_last_parsed (parse_known [title_and_hint; title_again])
           [first_root; null_file; broken_file; second_root] "core/lang.json").
  discriminate.
Defined.

(** X4.  In a run over files whose paths end in [.json], [data] lists the
    logical paths of the parsed files in the order in which they first
    arrived: a later file with a logical path seen before changes the value
    in place, not the position. *)
Theorem data_lists_first_arrivals : forall JSON_parse files,
  Forall (fun file => ends_with (path file) ".json") files ->
  keys (data (treatFiles JSON_parse files initial))
  = first_arrivals (keys (assignments JSON_parse files)).
Proof.
  intros JSON_parse files Hjson.
  rewrite data_json_files by exact Hjson. cbn [own].
  apply keys_assigned_plain. now apply assignments_plain.
Qed.

Lemma data_lists_first_arrivals_example :
  keys (data (treatFiles (parse_known [title_A; title_B; title_again])
                         [file_a; file_b;
                          {| path := "/two/src/app/core/a.json";
                             file_contents := IsBuffer (JSON.stringify4 title_again) |}]
                         initial))
  = first_arrivals
      (keys (assignments (parse_known [title_A; title_B; title_again])
               [file_a; file_b;
                {| path := "/two/src/app/core/a.json";
                   file_contents := IsBuffer (JSON.stringify4 title_again) |}])).
Proof.
  apply (data_lists_first_arrivals (parse_known [title_A; title_B; title_again])).
  repeat constructor; cbn [path].
  - now exists "/app/src/app/core/a".
  - now exists "/app/src/app/core/b".
  - now exists "/two/src/app/core/a".
Defined.

(** X5.  A run writes one line on the console for each file whose contents
    [JSON.parse] rejects, and nothing else. *)
Theorem console_one_line_per_rejected : forall JSON_parse files st,
  console (treatFiles JSON_parse files st)
  = (console st
     ++ repeat "Error parsing JSON:"
          (List.length (filter (rejected JSON_parse) files)))%list.
Proof.
  intros JSON_parse. induction files as [|file files IH]; intros st.
  - cbn. now rewrite app_nil_r.
  - rewrite treatFiles_cons, IH. cbn [filter].
    unfold treatFile, rejected.
    destruct (file_contents file) as [| | text]; try reflexivity.
    destruct (JSON_parse text); [reflexivity |].
    cbn [console List.length repeat]. now rewrite <- app_assoc.
Qed.

(** X6.  When files arrive and none of them is parsed (each is without
    contents, a stream, or rejected by [JSON.parse]), the call of
    [treatMergedData] returns and the joined file holds the two bytes of
    [{}]. *)
Theorem through_emits_empty_object : forall JSON_parse files,
  files <> [] ->
  assignments JSON_parse files = [] ->
  snd (through JSON_parse files) = Some (Ok [x7b; x7d]).
Proof.
  intros JSON_parse files Hfiles Hnone. unfold through. cbn [snd].
  rewrite data_assignments, Hnone.
  destruct files; [contradiction | reflexivity].
Qed.

Lemma through_emits_empty_object_example :
  snd (through (parse_known [title_A]) [null_file; broken_file; stream_file])
  = Some (Ok [x7b; x7d]).
Proof.
  apply (through_emits_empty_object (parse_known [title_A])
           [null_file; broken_file; stream_file]).
  - discriminate.
  - reflexivity.
Defined.

(** ** The path resolution of [run], once more *)

Lemma resolvePath_json : forall path, ends_with (resolvePath path) ".json".
Proof.
  intros path. unfold resolvePath.
  destruct (JS.endsWith path ".json") eqn:Hjson.
  - now apply endsWith_iff.
  - destruct (negb (JS.endsWith path "/")).
    + exists (path ++ "/lang"). now rewrite !append_assoc.
    + exists (path ++ "lang"). now rewrite append_assoc.
Qed.

(** X7.  Every path [run] hands to [gulp.src] ends in [.json], and resolving
    a resolved path changes nothing. *)
Theorem resolvePath_idempotent : forall path,
  ends_with (resolvePath path) ".json"
  /\ resolvePath (resolvePath path) = resolvePath path.
Proof.
  intros path. split; [apply resolvePath_json |].
  pose proof (resolvePath_json path) as H. apply endsWith_iff in H.
  unfold resolvePath at 1. now rewrite H.
Qed.

(** ** The prefix router, once more *)

Lemma strict_eq_true : forall x lit, JS.strict_eq x lit = true -> x = Some lit.
Proof.
  intros [s |] lit H; simpl in H; [| discriminate].
  apply String.eqb_eq in H. now subst.
Qed.

(** X8.  Outside [assets], the prefix does not depend on the file name: all
    files of one folder get the same prefix. *)
Theorem getPrefix_same_folder : forall path1 path2 folders file1 file2,
  segments path1 = (folders ++ [file1])%list ->
  segments path2 = (folders ++ [file2])%list ->
  nth_error folders 0 <> Some "assets" ->
  getPrefix path1 = getPrefix path2.
Proof.
  intros path1 path2 folders file1 file2 H1 H2 Hassets.
  unfold getPrefix. fold (segments path1). fold (segments path2).
  rewrite H1, H2, !removelast_last. cbv zeta.
  destruct (JS.strict_eq (JS.at_index folders 0) "core"); [reflexivity |].
  destruct (JS.strict_eq (JS.at_index folders 0) "addons"); [reflexivity |].
  destruct (JS.strict_eq (JS.at_index folders 0) "assets") eqn:H; [| reflexivity].
  apply strict_eq_true in H. contradiction.
Qed.

Lemma getPrefix_same_folder_example :
  getPrefix "core/features/course/lang.json"
  = getPrefix "core/features/course/strings.json".
Proof.
  apply (getPrefix_same_folder _ _ ["core"; "features"; "course"]
           "lang.json" "strings.json");
    first [reflexivity | discriminate].
Defined.

Lemma split_slash : forall p,
  JS.split is_path_separator (slash p) = JS.split is_path_separator p.
Proof.
  induction p as [|c p IH]; [reflexivity |].
  cbn [slash JS.split]. rewrite IH.
  destruct (Ascii.eqb_spec c "\"%char) as [-> | Hne]; [reflexivity |].
  reflexivity.
Qed.

(** X9.  The router takes [/] and [\] alike: a path and the same path with
    every backslash turned into a slash have the same segments and the same
    prefix. *)
Theorem getPrefix_separators_alike : forall path,
  segments (slash path) = segments path
  /\ getPrefix (slash path) = getPrefix path.
Proof.
  intros path. split.
  - apply split_slash.
  - unfold getPrefix. now rewrite split_slash.
Qed.

(** X10.  The [addons] rule keeps only the folder names joined with [_]:
    two [addons] paths whose folders join to the same text get the same
    prefix (so [addons/mod/forum] and [addons/mod_forum] share one), and a
    path under a folder named [addon] gets the prefix of the path with the
    same second folder directly under [addons]. *)
Theorem getPrefix_addons_ambiguous :
  (forall path1 path2 dirs1 dirs2 file1 file2,
      segments path1 = ("addons" :: dirs1 ++ [file1])%list ->
      segments path2 = ("addons" :: dirs2 ++ [file2])%list ->
      JS.join "_" dirs1 = JS.join "_" dirs2 ->
      getPrefix path1 = getPrefix path2)
  /\ (forall path1 path2 dir more file1 file2,
      segments path1 = ("addon" :: dir :: more ++ [file1])%list ->
      segments path2 = ["addons"; dir; file2] ->
      getPrefix path1 = getPrefix path2).
Proof.
  split.
  - intros path1 path2 dirs1 dirs2 file1 file2 H1 H2 Hjoin.
    unfold getPrefix. fold (segments path1). fold (segments path2).
    rewrite H1, H2.
    change ("addons" :: dirs1 ++ [file1])%list
      with (("addons" :: dirs1) ++ [file1])%list.
    change ("addons" :: dirs2 ++ [file2])%list
      with (("addons" :: dirs2) ++ [file2])%list.
    rewrite !removelast_last.
    unfold JS.at_index, JS.strict_eq, JS.slice_from_1. cbn [nth_error tl].
    change ("addons" =? "core")%string with false.
    change ("addons" =? "addons")%string with true.
    cbv iota. now rewrite Hjoin.
  - intros path1 path2 dir more file1 file2 H1 H2.
    unfold getPrefix. fold (segments path1). fold (segments path2).
    rewrite H1, H2.
    change ("addon" :: dir :: more ++ [file1])%list
      with (("addon" :: dir :: more) ++ [file1])%list.
    rewrite removelast_last. reflexivity.
Qed.

Lemma getPrefix_addons_ambiguous_examples :
  getPrefix "addons/mod/forum/lang.json" = getPrefix "addons/mod_forum/lang.json"
  /\ getPrefix "addon/mod/lang.json" = getPrefix "addons/mod/lang.json".
Proof.
  destruct getPrefix_addons_ambiguous as [Hjoin Haddon]. split.
  - apply (Hjoin _ _ ["mod"; "forum"] ["mod_forum"] "lang.json" "lang.json");
      reflexivity.
  - apply (Haddon _ _ "mod" [] "lang.json" "lang.json"); reflexivity.
Defined.

(** ** The merger, once more *)

Lemma ends_dot_plain : forall prefix property,
  ends_with prefix "." -> plain_key (prefix ++ property).
Proof.
  intros prefix property [front ->]. rewrite append_assoc. apply dotted_plain.
Qed.

Lemma keys_assign_all_appends : forall prefix props (target : obj),
  (forall p, plain_key (prefix ++ p)) ->
  NoDup (keys props) ->
  keys (assign_all prefix props target)
  = (keys target
     ++ filter (fun k => negb (existsb (String.eqb k) (keys target)))
               (map (append prefix) (keys props)))%list.
Proof.
  intros prefix. induction props as [|[p v] props IH];
    intros target Hplain Hnd.
  - simpl. now rewrite app_nil_r.
  - cbn [keys map fst] in Hnd. inversion Hnd as [|? ? Hp Hnd']; subst.
    cbn [assign_all fold_left].
    fold (assign_all prefix props (Obj.put target (prefix ++ p) v)).
    rewrite IH by assumption. rewrite put_plain by apply Hplain.
    cbn [keys map fst filter].
    fold (keys props). fold (keys target).
    destruct (Obj.has target (prefix ++ p)) eqn:Hhas.
    + rewrite keys_update.
      assert (Hin : existsb (String.eqb (prefix ++ p)) (keys target) = true)
        by (now apply existsb_eqb_In, has_In).
      rewrite Hin. reflexivity.
    + assert (Hout : existsb (String.eqb (prefix ++ p)) (keys target) = false).
      { destruct (existsb (String.eqb (prefix ++ p)) (keys target)) eqn:Hex;
          [| reflexivity].
        apply existsb_eqb_In, has_In in Hex. congruence. }
      rewrite Hout. cbn [negb].
      assert (Hkeys : keys (target ++ [((prefix ++ p)%string, v)])%list
                      = (keys target ++ [(prefix ++ p)%string])%list)
        by (unfold keys; now rewrite map_app).
      rewrite Hkeys, <- app_assoc. cbn [app]. do 2 f_equal.
      apply filter_ext_in. intros k Hk. f_equal.
      rewrite existsb_app. cbn [existsb]. rewrite orb_false_r.
      destruct (String.eqb_spec k (prefix ++ p)) as [-> | _];
        [| apply orb_false_r].
      exfalso. apply Hp. apply in_map_iff in Hk.
      destruct Hk as (q & Heq & Hq). apply append_inj_l in Heq. now subst q.
Qed.

(** X11.  With a prefix that ends in a dot and a source whose keys are
    distinct and do not include [hasOwnProperty], [addProperties] returns
    [target] with its own keys where they were, followed by the prefixed
    keys of the source that [target] did not hold, in the order of the
    source; the prototype of [target] is untouched. *)
Theorem addProperties_appends : forall (target : object) source prefix,
  ends_with prefix "." ->
  shadows_hasOwnProperty source = false ->
  NoDup (keys (own_properties source)) ->
  exists target' : object,
    addProperties target source prefix = Ok target'
    /\ keys target'
       = (keys target
          ++ filter (fun k => negb (existsb (String.eqb k) (keys target)))
                    (map (append prefix) (keys (own_properties source))))%list
    /\ proto target' = proto target.
Proof.
  intros target source prefix Hdot Hshadow Hnd.
  assert (Hplain : forall p, plain_key (prefix ++ p))
    by (intros p; now apply ends_dot_plain).
  exists (assign_each prefix (own_properties source) target).
  split; [now apply addProperties_unshadowed |].
  rewrite assign_each_own by (intros p _; apply Hplain).
  cbn [own proto]. split; [| reflexivity].
  now apply keys_assign_all_appends.
Qed.

Lemma addProperties_appends_example :
  exists target' : object,
    addProperties
      {| own := [("core.title", JString "A"); ("core.site", JString "S")];
         proto := ObjectPrototype |}
      title_and_hint "core."
    = Ok target'
    /\ keys target' = ["core.title"; "core.site"; "core.hint"]
    /\ proto target' = ObjectPrototype.
Proof.
  apply (addProperties_appends
           {| own := [("core.title", JString "A"); ("core.site", JString "S")];
              proto := ObjectPrototype |}
           title_and_hint "core.").
  - now exists "core".
  - reflexivity.
  - repeat constructor; simpl; intuition discriminate.
Defined.

(** X12.  Every member of the object [treatMergedData] serializes is a
    property of some entry of [data], under the prefix of that entry's
    logical path and with the value that entry gives it: no key or value is
    made up, and no value is changed. *)
Theorem treatMergedData_members_from_data :
  forall (data0 merged : object) key value,
  merge data0 = Ok merged ->
  In (key, value) (order merged) ->
  exists filepath parsed property,
    In (filepath, parsed) data0
    /\ In (property, value) (own_properties parsed)
    /\ key = getPrefix filepath ++ property.
Proof.
  intros data0 merged key value Hmerge H.
  rewrite (order_merged data0 merged Hmerge) in H.
  apply In_order in H; [| apply merge_NoDup | apply merge_plain].
  rewrite merged_of_fold in H. apply In_fold_merge in H.
  destruct H as [[] | (f & s & q & w & Hin & Hq & Heq)].
  injection Heq as -> ->. now exists f, s, q.
Qed.

Lemma treatMergedData_members_from_data_example :
  exists filepath parsed property,
    In (filepath, parsed) colliding
    /\ In (property, JString "B") (own_properties parsed)
    /\ "core.title" = getPrefix filepath ++ property.
Proof.
  apply (treatMergedData_members_from_data colliding
           {| own := [("core.title", JString "B")]; proto := ObjectPrototype |}
           "core.title" (JString "B")).
  - reflexivity.
  - now left.
Defined.

Lemma get_skip : forall (before after : obj) entry k,
  fst entry <> k ->
  Obj.get (before ++ entry :: after)%list k = Obj.get (before ++ after)%list k.
Proof.
  intros before after [k' v] k Hne. rewrite !get_app. cbn [Obj.get fst] in *.
  destruct (String.eqb_spec k' k) as [-> | _]; [contradiction | reflexivity].
Qed.

Lemma skip_empty_value : forall (before after : obj) filepath parsed,
  own_properties parsed = [] ->
  bytes_of (before ++ (filepath, parsed) :: after)%list
  = bytes_of (before ++ after)%list.
Proof.
  intros before after filepath parsed Hempty. unfold bytes_of.
  rewrite !merged_of_fold, !fold_left_app. cbn [fold_left].
  rewrite merge_step_assign, Hempty. reflexivity.
Qed.

(** X13.  An entry of [data] whose parsed value has no own property ([null],
    a boolean, a number, [{}], [[]] or the empty string) changes nothing in
    the result: [treatMergedData] returns the bytes, or raises, as it does
    for [data] without that entry.  This needs the entry not to be named
    [hasOwnProperty] and not to be the only property of an object without
    prototype: in both cases the guard of the loop raises with the entry and
    is not reached without it. *)
Theorem treatMergedData_skips_empty_values :
  forall before after filepath parsed parent,
  own_properties parsed = [] ->
  filepath <> "hasOwnProperty" ->
  (parent = NullPrototype -> (before ++ after)%list <> []) ->
  treatMergedData
    {| own := (before ++ (filepath, parsed) :: after)%list; proto := parent |}
  = treatMergedData {| own := (before ++ after)%list; proto := parent |}.
Proof.
  intros before after filepath parsed parent Hempty Hname Hnull.
  rewrite !treatMergedData_returns. cbn [own].
  rewrite (skip_empty_value before after filepath parsed Hempty).
  assert (Hraises : raises {| own := (before ++ (filepath, parsed) :: after)%list;
                              proto := parent |}
                    = raises {| own := (before ++ after)%list;
                                proto := parent |});
    [| now rewrite Hraises].
  unfold raises. cbn [own].
  assert (Hshadow : shadows_hasOwnProperty parsed = false)
    by (unfold shadows_hasOwnProperty; now rewrite Hempty).
  rewrite !existsb_app. cbn [existsb snd]. rewrite Hshadow. cbn [orb].
  f_equal.
  assert (Hhas : Obj.has (before ++ (filepath, parsed) :: after)%list
                         "hasOwnProperty"
                 = Obj.has (before ++ after)%list "hasOwnProperty").
  { unfold Obj.has. now rewrite (get_skip before after (filepath, parsed)). }
  unfold builtin_hasOwnProperty. cbn [own proto]. rewrite Hhas.
  assert (Hvisits : match for_in {| own := (before ++ (filepath, parsed) :: after)%list;
                                    proto := parent |}
                    with [] => false | _ :: _ => true end = true).
  { unfold for_in. cbn [own]. now destruct before. }
  rewrite Hvisits.
  destruct (Obj.has (before ++ after)%list "hasOwnProperty") eqn:Hown.
  - cbn [negb andb]. unfold for_in. cbn [own].
    destruct (before ++ after)%list; [discriminate Hown | reflexivity].
  - destruct parent as [| | value].
    + reflexivity.
    + cbn [negb andb]. unfold for_in. cbn [own].
      destruct (before ++ after)%list eqn:Hrest; [| reflexivity].
      exfalso. now apply Hnull.
    + destruct value as [| | | | | props]; try reflexivity.
      destruct (Obj.has props "hasOwnProperty") eqn:Hprops; [| reflexivity].
      cbn [negb andb]. unfold for_in, inherited. cbn [own proto own_properties].
      destruct (before ++ after)%list eqn:Hrest; [| reflexivity].
      cbn [app]. unfold Obj.has in Hprops.
      destruct (Obj.get props "hasOwnProperty") as [v |] eqn:Hget;
        [| discriminate Hprops].
      apply get_In in Hget.
      assert (Hkept : In ("hasOwnProperty", v)
                         (filter (fun p : string * json => negb (Obj.has [] (fst p)))
                                 props))
        by (apply filter_In; split; [exact Hget | reflexivity]).
      destruct (filter _ props); [destruct Hkept | reflexivity].
Qed.

Lemma treatMergedData_skips_empty_values_example :
  treatMergedData
    {| own := ([("core/a.json", title_A)]
               ++ ("core/count.json", JNumber "42") :: [("core/b.json", title_B)])%list;
       proto := ObjectPrototype |}
  = treatMergedData
      {| own := ([("core/a.json", title_A)] ++ [("core/b.json", title_B)])%list;
         proto := ObjectPrototype |}.
Proof.
  apply (treatMergedData_skips_empty_values
           [("core/a.json", title_A)] [("core/b.json", title_B)]
           "core/count.json" (JNumber "42") ObjectPrototype).
  - reflexivity.
  - discriminate.
  - discriminate.
Defined.

(** ** A whole run *)

Lemma existsb_shadows : forall entries : obj,
  existsb (fun entry : string * json => shadows_hasOwnProperty (snd entry)) entries
  = true
  <-> exists filepath parsed,
        In (filepath, parsed) entries
        /\ In "hasOwnProperty" (keys (own_properties parsed)).
Proof.
  intros entries. rewrite existsb_exists. unfold shadows_hasOwnProperty. split.
  - intros ([f s] & Hin & H). exists f, s. split; [exact Hin |].
    now apply has_In.
  - intros (f & s & Hin & H). exists (f, s). split; [exact Hin |].
    now apply has_In.
Qed.

Lemma raises_iff : forall data0 : object,
  raises data0 = true
  <-> (builtin_hasOwnProperty data0 = false /\ for_in data0 <> [])
      \/ exists filepath parsed,
           In (filepath, parsed) data0
           /\ In "hasOwnProperty" (keys (own_properties parsed)).
Proof.
  intros data0. unfold raises.
  rewrite orb_true_iff, andb_true_iff, negb_true_iff, existsb_shadows.
  assert (Hvisits : match for_in data0 with [] => false | _ :: _ => true end
                    = true <-> for_in data0 <> []).
  { destruct (for_in data0); split; intros H;
      first [discriminate | reflexivity | now elim H]. }
  now rewrite Hvisits.
Qed.

Lemma assignment_key : forall JSON_parse file k v,
  assignment JSON_parse file = Some (k, v) -> k = logical_path (path file).
Proof.
  intros JSON_parse file k v. unfold assignment.
  destruct (file_contents file) as [| | text]; try discriminate.
  destruct (JSON_parse text); [| discriminate].
  now intros [= <- _].
Qed.

(** The logical path of a file whose name ends in [.json] ends in [.json]
    or is an ending of [.json]. *)
Lemma logical_path_json : forall filePath,
  ends_with filePath ".json" ->
  ends_with (logical_path filePath) ".json"
  \/ In (logical_path filePath) [".json"; "json"; "son"; "on"; "n"; ""].
Proof.
  intros filePath [stem Hjson].
  destruct (logical_path_suffix filePath) as [front Hsuffix].
  rewrite Hsuffix in Hjson at 1.
  apply append_split in Hjson. destruct Hjson as [[m Hm] | [m Hm]].
  - left. now exists m.
  - right. now apply (json_suffixes m).
Qed.

Lemma json_not_hasOwnProperty : forall filePath,
  ends_with filePath ".json" -> logical_path filePath <> "hasOwnProperty".
Proof.
  intros filePath Hjson Heq.
  destruct (logical_path_json filePath Hjson) as [Hend | Hin];
    rewrite Heq in *.
  - apply endsWith_iff in Hend. discriminate Hend.
  - simpl in Hin. intuition discriminate.
Qed.

(** In a run over files whose paths end in [.json], the guard of the loop
    over [data] is the built-in. *)
Lemma data_builtin_json : forall JSON_parse files,
  Forall (fun file => ends_with (path file) ".json") files ->
  builtin_hasOwnProperty (data (treatFiles JSON_parse files initial)) = true.
Proof.
  intros JSON_parse files Hjson.
  assert (Hout : Obj.has (data (treatFiles JSON_parse files initial))
                         "hasOwnProperty" = false).
  { apply has_false_In. intros Hin. apply in_map_iff in Hin.
    destruct Hin as ([k v] & Hk & Hin). cbn [fst] in Hk. subst k.
    rewrite data_assignments in Hin. apply In_fold_assign in Hin.
    destruct Hin as [[] | Hin]. apply In_assignments in Hin.
    destruct Hin as (file & Hfile & Hentry).
    apply assignment_key in Hentry.
    rewrite Forall_forall in Hjson.
    now apply (json_not_hasOwnProperty (path file) (Hjson file Hfile)). }
  unfold builtin_hasOwnProperty. rewrite Hout.
  now rewrite data_json_files.
Qed.

(** X14.  A run over files whose paths end in [.json] emits the joined file
    unless a value [data] ends with (the value parsed from the last file of
    some logical path) has an own property named [hasOwnProperty]: then the
    call of [treatMergedData] raises [TypeError], and nothing is emitted. *)
Theorem run_emits_unless_shadowed : forall JSON_parse files,
  Forall (fun file => ends_with (path file) ".json") files ->
  files <> [] ->
  (snd (through JSON_parse files) = Some (Raise TypeError)
   <-> exists filepath parsed,
         last_assigned (assignments JSON_parse files) filepath = Some parsed
         /\ In "hasOwnProperty" (keys (own_properties parsed)))
  /\ ((forall filepath parsed,
         last_assigned (assignments JSON_parse files) filepath = Some parsed ->
         ~ In "hasOwnProperty" (keys (own_properties parsed))) ->
      exists bytes, snd (through JSON_parse files) = Some (Ok bytes)).
Proof.
  intros JSON_parse files Hjson Hfiles.
  assert (Hout : snd (through JSON_parse files)
                 = Some (treatMergedData
                           (data (treatFiles JSON_parse files initial))))
    by (unfold through; cbn [snd]; now destruct files).
  assert (Hraises : raises (data (treatFiles JSON_parse files initial)) = true
            <-> exists filepath parsed,
                  last_assigned (assignments JSON_parse files) filepath
                  = Some parsed
                  /\ In "hasOwnProperty" (keys (own_properties parsed))).
  { rewrite raises_iff, (data_builtin_json _ _ Hjson). split.
    - intros [[H _] | (f & s & Hin & Hs)]; [discriminate H |].
      exists f, s. split; [| exact Hs].
      now apply data_entries_last_assigned.
    - intros (f & s & Hlast & Hs). right. exists f, s. split; [| exact Hs].
      now apply data_entries_last_assigned. }
  rewrite Hout, treatMergedData_returns. split.
  - rewrite <- Hraises.
    destruct (raises (data (treatFiles JSON_parse files initial)));
      split; intros H; try reflexivity; discriminate H.
  - intros Hnone.
    destruct (raises (data (treatFiles JSON_parse files initial))) eqn:Hr.
    + destruct (proj1 Hraises eq_refl) as (f & s & Hlast & Hs).
      exfalso. now apply (Hnone f s).
    + now eexists.
Qed.

Lemma run_emits_unless_shadowed_example :
  snd (through (parse_known [title_A; with_hasOwnProperty])
               [file_a; shadowing_file])
  = Some (Raise TypeError).
Proof.
  apply (proj1 (run_emits_unless_shadowed
                  (parse_known [title_A; with_hasOwnProperty])
                  [file_a; shadowing_file]
                  ltac:(repeat constructor; cbn [path];
                        [now exists "/app/src/app/core/a"
                        | now exists "/app/src/app/core/shadow"])
                  ltac:(discriminate))).
  exists "core/shadow.json", with_hasOwnProperty.
  split; [reflexivity | simpl; tauto].
Defined.

(** X16.  [treatMergedData] raises [TypeError] in two cases and no other:
    the loop over [data] visits a property while [data.hasOwnProperty] is
    not the built-in ([data] has an own property of that name, or has lost
    its prototype, or inherits the name from a parsed prototype); or the
    value of an own property of [data] has an own property named
    [hasOwnProperty], so that the guard of [addProperties] is not a
    function. *)
Theorem treatMergedData_raises_when : forall data0 : object,
  let shadowed :=
    (builtin_hasOwnProperty data0 = false /\ for_in data0 <> [])
    \/ exists filepath parsed,
         In (filepath, parsed) data0
         /\ In "hasOwnProperty" (keys (own_properties parsed)) in
  (treatMergedData data0 = Raise TypeError <-> shadowed)
  /\ ((exists bytes, treatMergedData data0 = Ok bytes) <-> ~ shadowed).
Proof.
  intros data0 shadowed. unfold shadowed.
  rewrite <- raises_iff, treatMergedData_returns.
  destruct (raises data0); split; split; intros H;
    first [reflexivity | discriminate H | now elim H | now eexists
          | destruct H as [bytes H]; discriminate H
          | intros H'; discriminate H'].
Qed.

(** X17.  A parsed [null] assigned under the key [__proto__] is not stored:
    the assignment removes the prototype of the object, and with it the
    method [hasOwnProperty], so [treatMergedData] raises as soon as the
    object has a property; a later assignment to [__proto__] creates an own
    property of that name. *)
Theorem null_under_proto : forall o : object,
  proto o = ObjectPrototype ->
  ~ In "__proto__" (keys o) ->
  own (Obj.set o "__proto__" JNull) = own o
  /\ proto (Obj.set o "__proto__" JNull) = NullPrototype
  /\ (own o <> [] ->
      treatMergedData (Obj.set o "__proto__" JNull) = Raise TypeError)
  /\ forall v,
      own (Obj.set (Obj.set o "__proto__" JNull) "__proto__" v)
      = (own o ++ [("__proto__", v)])%list.
Proof.
  intros o Hproto Hout.
  assert (Hset : Obj.set o "__proto__" JNull
                 = {| own := own o; proto := NullPrototype |}).
  { unfold Obj.set. apply has_false_In in Hout. rewrite Hout, Hproto.
    reflexivity. }
  rewrite Hset. cbn [own proto]. repeat split.
  - intros Hown. rewrite treatMergedData_returns.
    assert (Hraises : raises {| own := own o; proto := NullPrototype |} = true);
      [| now rewrite Hraises].
    apply raises_iff. left. split.
    + unfold builtin_hasOwnProperty. cbn [own proto].
      now destruct (Obj.has o "hasOwnProperty").
    + unfold for_in. cbn [own]. intros H. apply app_eq_nil in H.
      now apply Hown.
  - intros v. unfold Obj.set. cbn [own proto].
    apply has_false_In in Hout. rewrite Hout.
    cbn [Obj.reaches_proto_accessor andb own]. rewrite andb_false_r.
    unfold Obj.put. cbn [own]. now rewrite Hout.
Qed.

Lemma null_under_proto_example :
  treatMergedData
    (data (treatFiles (parse_known [JNull; title_A]) [file_a; proto_file] initial))
  = Raise TypeError.
Proof.
  destruct (null_under_proto
              {| own := [("core/a.json", title_A)]; proto := ObjectPrototype |}
              eq_refl) as (_ & _ & Hraise & _).
  - simpl. intuition discriminate.
  - apply Hraise. discriminate.
Defined.

(** X15.  The logical path [treatFile] computes is always an ending of the
    path of the file, in each of the five ways the searches can turn out. *)
Theorem logical_path_is_ending : forall filePath,
  ends_with filePath (logical_path filePath)
  /\ String.length (logical_path filePath) <= String.length filePath.
Proof.
  intros filePath. destruct (logical_path_suffix filePath) as [front Hfront].
  split.
  - now exists front.
  - rewrite Hfront at 2. rewrite length_append. lia.
Qed.
